(** * Invoice PDFs to ledger rows: a model of [main.py] and its properties

    The program lists the PDF files of a Drive folder, obtains the text of
    each one (embedded text layer first, rasterisation and OCR when that is
    blank), infers a date, an amount and a partner name with regular
    expressions, and writes one row per file into [output.csv].

    Python strings are sequences of Unicode code points: a [text] is a list
    of code points, so that [re], [str.strip] and [str.splitlines] see the
    same characters as the interpreter does.  External libraries
    (pdfplumber, pdf2image, PIL, pytesseract, the Drive client) are modelled
    by what they answer: a value or a raised exception. *)

From Stdlib Require Import String Ascii NArith ZArith Lia.
From stdpp Require Import base option list.

Set Default Proof Using "Type".

(** ** Text *)

Abbreviation char := N (only parsing).
Abbreviation text := (list N) (only parsing).

(** Source literals are UTF-8; [utf8] decodes one into its code points, as
    the interpreter does when it reads the module. *)
Fixpoint utf8_decode (pending : nat) (acc : N) (bs : list N) : text :=
  match bs with
  | [] => []
  | b :: bs' =>
      match pending with
      | 0 =>
          if (b <? 128)%N then b :: utf8_decode 0 0%N bs'
          else if (b <? 224)%N then utf8_decode 1 (b mod 32)%N bs'
          else if (b <? 240)%N then utf8_decode 2 (b mod 16)%N bs'
          else utf8_decode 3 (b mod 8)%N bs'
      | 1 => (acc * 64 + b mod 64)%N :: utf8_decode 0 0%N bs'
      | S p => utf8_decode p (acc * 64 + b mod 64)%N bs'
      end
  end.

Definition utf8 (s : string) : text :=
  utf8_decode 0 0%N (map N_of_ascii (list_ascii_of_string s)).

Definition newline : text := [10%N].

Definition is_empty (s : text) : bool :=
  match s with [] => true | _ => false end.

(** [s.replace(old, '')] and [s.replace(old, new)] for one-character
    arguments. *)
Definition remove_char (old : char) (s : text) : text :=
  filter (λ c, c ≠ old) s.

Definition replace_char (old new : char) (s : text) : text :=
  map (λ c, if (c =? old)%N then new else c) s.

(** [str.isspace] for one character: the code points whose bidirectional
    class is WS, B or S, or whose category is Zs. *)
Definition isspace (c : char) : bool :=
  ((9 <=? c) && (c <=? 13) || (28 <=? c) && (c <=? 32)
   || (c =? 133) || (c =? 160) || (c =? 5760)
   || (8192 <=? c) && (c <=? 8202)
   || (c =? 8232) || (c =? 8233) || (c =? 8239) || (c =? 8287)
   || (c =? 12288))%N.

Fixpoint lstrip (s : text) : text :=
  match s with
  | [] => []
  | c :: s' => if isspace c then lstrip s' else s
  end.

Definition rstrip (s : text) : text := reverse (lstrip (reverse s)).

Definition strip (s : text) : text := rstrip (lstrip s).

(** The line boundaries of [str.splitlines]: LF, CR, CR LF, VT, FF, FS, GS,
    RS, NEL, LS and PS. *)
Definition is_linebreak (c : char) : bool :=
  ((10 <=? c) && (c <=? 13) || (28 <=? c) && (c <=? 30)
   || (c =? 133) || (c =? 8232) || (c =? 8233))%N.

(** [cur] holds the current line, last character first.  A final line
    break does not open an empty last line. *)
Fixpoint splitlines_from (cur : text) (s : text) : list text :=
  match s with
  | [] => if is_empty cur then [] else [reverse cur]
  | c :: s' =>
      if is_linebreak c then
        match s' with
        | c' :: s'' =>
            if (c =? 13)%N && (c' =? 10)%N
            then reverse cur :: splitlines_from [] s''
            else reverse cur :: splitlines_from [] s'
        | [] => [reverse cur]
        end
      else splitlines_from (c :: cur) s'
  end.

Definition splitlines (s : text) : list text := splitlines_from [] s.

(** ** Regular expressions

    The two patterns of [parse_info] use character classes,
    concatenation, the bounded greedy repetition [{lo,hi}], the greedy
    star and a non-capturing group (which only groups). *)

Inductive regex : Type :=
  | Cls (p : char → bool)
  | Seq (r1 r2 : regex)
  | Rep (r : regex) (lo hi : nat)
  | Star (r : regex).

(** The two repetitions over the runs of their body.  A greedy repetition
    tries one more iteration before it tries to stop; the star gives up an
    iteration that consumed nothing, as the engine does. *)
Section Repetition.
Variable run : text → list text.

Fixpoint rep_run (hi lo : nat) (s : text) {struct hi} : list text :=
  match hi with
  | 0 => if decide (lo = 0) then [s] else []
  | S hi' =>
      (run s ≫= rep_run hi' (pred lo))
      ++ (if decide (lo = 0) then [s] else [])
  end.

Fixpoint star_run (fuel : nat) (s : text) {struct fuel} : list text :=
  match fuel with
  | 0 => [s]
  | S fuel' =>
      (run s ≫= λ s',
         if decide (length s' < length s) then star_run fuel' s' else [])
      ++ [s]
  end.
End Repetition.

(** [rx_run r s] lists every way of matching [r] at the start of [s], each
    given by the input left after the match, in the order in which the
    backtracking engine tries them. *)
Fixpoint rx_run (r : regex) (s : text) {struct r} : list text :=
  match r with
  | Cls p =>
      match s with
      | c :: s' => if p c then [s'] else []
      | [] => []
      end
  | Seq r1 r2 => rx_run r1 s ≫= rx_run r2
  | Rep r' lo hi => rep_run (rx_run r') hi lo s
  | Star r' => star_run (rx_run r') (length s) s
  end.

(** The match found at the start of [s], if any: the engine's first
    choice, as the text it covers. *)
Definition rx_match (r : regex) (s : text) : option text :=
  match rx_run r s with
  | rest :: _ => Some (take (length s - length rest) s)
  | [] => None
  end.

(** [re.search(r, s)]: the match at the first position that has one;
    [group(0)] of the result, or [None]. *)
Fixpoint search (r : regex) (s : text) : option text :=
  match rx_match r s with
  | Some m => Some m
  | None =>
      match s with
      | [] => None
      | _ :: s' => search r s'
      end
  end.

(** ** Character classes of the two patterns *)

(** [[0-9]] *)
Definition ascii_digit (c : char) : bool := ((48 <=? c) && (c <=? 57))%N.

(** [\d] on [str] is every Unicode decimal digit (category Nd).  Beyond
    ASCII the set belongs to the interpreter's Unicode database. *)
Class UnicodeData := { Nd_beyond_ascii : char → bool }.

Definition unicode_digit `{U : UnicodeData} (c : char) : bool :=
  ascii_digit c || (128 <=? c)%N && Nd_beyond_ascii c.

(** [[/-]] *)
Definition date_sep (c : char) : bool := ((c =? 47) || (c =? 45))%N.

Definition comma : char := 44%N.
Definition hyphen : char := 45%N.
Definition slash : char := 47%N.

(** [r'\d{4}[/-]\d{1,2}[/-]\d{1,2}'] *)
Definition date_re `{U : UnicodeData} : regex :=
  Seq (Rep (Cls unicode_digit) 4 4)
   (Seq (Cls date_sep)
    (Seq (Rep (Cls unicode_digit) 1 2)
     (Seq (Cls date_sep)
      (Rep (Cls unicode_digit) 1 2)))).

(** [r'[0-9]{1,3}(?:,[0-9]{3})*'] *)
Definition amount_re : regex :=
  Seq (Rep (Cls ascii_digit) 1 3)
      (Star (Seq (Cls (λ c, (c =? comma)%N)) (Rep (Cls ascii_digit) 3 3))).

(** ** [parse_info] *)

(** The loop over [text.splitlines()]: the first line that is not empty
    once stripped. *)
Fixpoint first_nonblank (lines : list text) : text :=
  match lines with
  | [] => []
  | line :: rest =>
      let line := strip line in
      if is_empty line then first_nonblank rest else line
  end.

Definition parse_info `{U : UnicodeData} (t : text) : text * text * text :=
  let date_match := search date_re t in
  let amount_match := search amount_re t in
  let name := first_nonblank (splitlines t) in
  let date := match date_match with Some m => m | None => [] end in
  let amount :=
    match amount_match with Some m => remove_char comma m | None => [] end in
  (date, amount, name).

Definition parsed_date `{U : UnicodeData} (t : text) : text := (parse_info t).1.1.
Definition parsed_amount `{U : UnicodeData} (t : text) : text := (parse_info t).1.2.

(** ** Exceptions *)

Inductive exn : Type :=
  | IndexError
  | UnicodeEncodeError
  | Exception (what : text).

Inductive outcome (A : Type) : Type :=
  | Ok (a : A)
  | Raise (e : exn).
Arguments Ok {A} a.
Arguments Raise {A} e.

(** ** [build_csv_row] *)

Definition CSV_COLUMNS : list text := map utf8
  [ "月日"; "伝票番号"; "証憑番号"; "借方科目コード"; "借方科目名"; "借方補助コード";
    "借方口座名"; "借方部門コード"; "借方部門名"; "借方課税区分"; "借方事業区分";
    "借方消費税額自動計算か否か"; "借方軽減税率か否か"; "借方税率"; "借方控除割合";
    "借方取引金額"; "借方消費税等"; "借方税抜き金額"; "貸方科目コード"; "貸方科目名";
    "貸方補助コード"; "貸方口座名"; "貸方部門コード"; "貸方部門名"; "貸方課税区分";
    "貸方事業区分"; "貸方消費税額自動計算か否か"; "貸方軽減税率か否か"; "貸方税率";
    "貸方控除割合"; "貸方取引金額"; "貸方消費税等"; "貸方税抜き金額"; "取引先コード";
    "取引先名"; "取引先の事業者登録番号"; "元帳摘要"; "実際の仕入れ年月日表示区分";
    "実際の仕入れ年月日１"; "実際の仕入れ年月日２"; "収支区分コード"; "収支区分名";
    "内訳区分コード"; "内訳区分名" ]%string.

(** [l[i] = v]: an index past the end raises [IndexError]. *)
Definition setitem (l : list text) (i : nat) (v : text) : outcome (list text) :=
  if decide (i < length l) then Ok (<[i:=v]> l) else Raise IndexError.

Definition build_csv_row (date amount partner : text) : outcome (list text) :=
  let row := replicate (length CSV_COLUMNS) [] in
  match setitem row 0
          (if is_empty date then [] else replace_char hyphen slash date) with
  | Raise e => Raise e
  | Ok row =>
      match setitem row 15 amount with
      | Raise e => Raise e
      | Ok row => setitem row 33 partner
      end
  end.

(** ** Rows as list objects

    A Python list is an object.  [CSV_COLUMNS] is one list, made when the
    module is loaded and read by every call of [build_csv_row]; each call
    makes the list that it fills and returns.  The heap holds the list
    objects; an address is a position in it. *)

Module Objects.
Abbreviation heap := (list (list (list N))) (only parsing).

(** [len(a)] *)
Definition list_len (h : heap) (a : nat) : nat :=
  match h !! a with
  | Some l => length l
  | None => 0
  end.

(** [[cell] * n]: a new list object, and its address. *)
Definition new_list (h : heap) (cell : text) (n : nat) : heap * nat :=
  (h ++ [replicate n cell], length h).

(** [a[i] = v], in place; an address is always that of a list made
    before, so that only the index can be wrong. *)
Definition store_item (h : heap) (a i : nat) (v : text) : heap * outcome () :=
  match h !! a with
  | Some l =>
      if decide (i < length l) then (<[a:=<[i:=v]> l]> h, Ok ())
      else (h, Raise IndexError)
  | None => (h, Raise IndexError)
  end.

(** [build_csv_row], [columns] being the address of [CSV_COLUMNS]. *)
Definition build_csv_row (columns : nat) (date amount partner : text)
    (h : heap) : heap * outcome nat :=
  let '(h, row) := new_list h [] (list_len h columns) in
  match store_item h row 0
          (if is_empty date then [] else replace_char hyphen slash date) with
  | (h, Raise e) => (h, Raise e)
  | (h, Ok _) =>
      match store_item h row 15 amount with
      | (h, Raise e) => (h, Raise e)
      | (h, Ok _) =>
          match store_item h row 33 partner with
          | (h, Raise e) => (h, Raise e)
          | (h, Ok _) => (h, Ok row)
          end
      end
  end.

(** The two stages from the text to the row, lines 127 and 128 up to the
    call of [writerow]: the fields, and the address of the row. *)
Definition parse_and_build `{U : UnicodeData} (columns : nat) (t : text)
    (h : heap) : heap * outcome (text * text * text * nat) :=
  let '(date, amount, partner) := parse_info t in
  match build_csv_row columns date amount partner h with
  | (h, Ok row) => (h, Ok (date, amount, partner, row))
  | (h, Raise e) => (h, Raise e)
  end.
End Objects.

(** ** What the output file can hold

    [output.csv] is opened with [encoding='utf-8-sig'].  UTF-8 encodes
    every code point but the surrogates (U+D800 to U+DFFF), which a Python
    string may hold. *)

Definition is_surrogate (c : char) : bool :=
  ((55296 <=? c) && (c <=? 57343))%N.

Definition encodable (row : list text) : bool :=
  forallb (forallb (λ c, negb (is_surrogate c))) row.

(** ** The libraries the pipeline calls *)

(** PIL images and what is done to them. *)
Class Imaging := {
  image : Type;
  (** [ImageOps.grayscale(img)] *)
  grayscale : image → image;
  (** [img.point(f, '1')] *)
  point : (Z → Z) → image → image;
  (** [pytesseract.image_to_string(img, lang='jpn+eng')] *)
  image_to_string : image → outcome text;
}.

Section Pipeline.
Context `{U : UnicodeData} `{I : Imaging}.

(** A PDF in its temporary file, by what the libraries make of it:
    [pdfplumber.open] fails or gives the pages, each page's
    [extract_text()] fails or gives [None] or a string;
    [convert_from_path(path, dpi=300)] fails or gives the page images. *)
Record document := {
  pdfplumber_pages : outcome (list (outcome (option text)));
  convert_from_path : outcome (list image);
}.

(** An entry of the Drive listing, and what [get_media] downloads for
    it. *)
Record drive_file := {
  file_id : text;
  file_name : text;
  download_pdf : outcome document;
}.

(** The service: what [files().list(...)] answers. *)
Record drive_service := {
  list_pdf_files : outcome (list drive_file);
}.

(** *** [extract_text_from_pdf] *)

(** The loop over [pdf.pages]: the text gathered when the loop ended, and
    how it ended. *)
Fixpoint read_pages (pages : list (outcome (option text))) (t : text)
  : text * outcome () :=
  match pages with
  | [] => (t, Ok ())
  | Raise e :: _ => (t, Raise e)
  | Ok page_text :: pages' =>
      match page_text with
      | Some (c :: p) => read_pages pages' (t ++ (c :: p) ++ newline)
      | _ => read_pages pages' t
      end
  end.

(** [text] is assigned before the [try] and returned after it, whatever
    was raised inside. *)
Definition extract_text_from_pdf (doc : document) : text :=
  let t := [] in
  match pdfplumber_pages doc with
  | Raise _ => t
  | Ok pages => (read_pages pages t).1
  end.

(** *** State: the rows written to [output.csv], and the calls made *)

Inductive call : Type :=
  | Call_extract_text_from_pdf
  | Call_pdf_to_images
  | Call_convert_from_path
  | Call_ocr_images
  | Call_image_to_string.

Record state := {
  csv : list (list text);
  calls : list call;
}.

Definition M (A : Type) : Type := state → state * outcome A.

#[global] Instance M_ret : MRet M := λ A a st, (st, Ok a).
#[global] Instance M_bind : MBind M := λ A B f m st,
  match m st with
  | (st', Ok a) => f a st'
  | (st', Raise e) => (st', Raise e)
  end.

Definition lift {A} (o : outcome A) : M A := λ st, (st, o).

Definition called (c : call) : M () := λ st,
  ({| csv := csv st; calls := calls st ++ [c] |}, Ok ()).

(** [writer.writerow(row)]: the line is encoded when it is written; when a
    cell cannot be encoded [UnicodeEncodeError] is raised and nothing of
    the row reaches the file. *)
Definition writerow (row : list text) : M () := λ st,
  if encodable row
  then ({| csv := csv st ++ [row]; calls := calls st |}, Ok ())
  else (st, Raise UnicodeEncodeError).

Fixpoint for_each {A} (body : A → M ()) (l : list A) : M () :=
  match l with
  | [] => mret ()
  | a :: l' => body a ;; for_each body l'
  end.

(** *** [pdf_to_images] and [ocr_images] *)

Definition pdf_to_images (doc : document) : M (list image) :=
  called Call_pdf_to_images;;
  called Call_convert_from_path;;
  images ← lift (convert_from_path doc);
  mret (map (λ img,
               let gray := grayscale img in
               let enlarged := gray in
               point (λ x, if (x <? 128)%Z then 0%Z else 255%Z) enlarged)
            images).

Fixpoint ocr_pages (images : list image) (t : text) : M text :=
  match images with
  | [] => mret t
  | img :: images' =>
      called Call_image_to_string;;
      page ← lift (image_to_string img);
      ocr_pages images' (t ++ page ++ newline)
  end.

Definition ocr_images (images : list image) : M text :=
  called Call_ocr_images;;
  ocr_pages images [].

(** *** [process_pdfs] *)

(** The text of a downloaded document: lines 123 to 126. *)
Definition document_text (doc : document) : M text :=
  called Call_extract_text_from_pdf;;
  let t := extract_text_from_pdf doc in
  if is_empty (strip t) then
    images ← pdf_to_images doc;
    ocr_images images
  else mret t.

(** From the text to the row written: lines 127 and 128. *)
Definition emit_row (t : text) : M () :=
  let '(date, amount, partner) := parse_info t in
  row ← lift (build_csv_row date amount partner);
  writerow row.

(** The body of the loop over the listing. *)
Definition process_file (file : drive_file) : M () :=
  doc ← lift (download_pdf file);
  t ← document_text doc;
  emit_row t.

Definition process_pdfs (service : drive_service) : M () :=
  files ← lift (list_pdf_files service);
  writerow CSV_COLUMNS;;
  for_each process_file files.

Definition start : state := {| csv := []; calls := [] |}.

(** [main]: the service is what [get_drive_service] answers, an
    exception when the credentials cannot be loaded. *)
Definition main (get_drive_service : outcome drive_service) : M () :=
  service ← lift get_drive_service;
  process_pdfs service.
End Pipeline.

(** * Properties *)

(** ** What a regular expression denotes, and the grammars of the
    specification *)

Fixpoint lang (r : regex) (w : text) : Prop :=
  match r with
  | Cls p => ∃ c, w = [c] ∧ p c = true
  | Seq r1 r2 => ∃ w1 w2, w = w1 ++ w2 ∧ lang r1 w1 ∧ lang r2 w2
  | Rep r' lo hi =>
      ∃ ws, w = concat ws ∧ lo ≤ length ws ≤ hi ∧ Forall (lang r') ws
  | Star r' => ∃ ws, w = concat ws ∧ Forall (lang r') ws
  end.

Definition all_of (p : char → bool) (w : text) : Prop :=
  Forall (λ c, p c = true) w.

(** A grouped-digit numeral: 1 to 3 leading digits, then zero or more
    groups of exactly 3 digits, each preceded by a comma. *)
Definition amount_numeral (w : text) : Prop :=
  ∃ lead groups,
    w = lead ++ concat (map (cons comma) groups)
    ∧ 1 ≤ length lead ≤ 3 ∧ all_of ascii_digit lead
    ∧ Forall (λ g, length g = 3 ∧ all_of ascii_digit g) groups.

(** A numeric date: YYYY separator M(M) separator D(D), the separators
    among [/] and [-]. *)
Definition date_numeral `{U : UnicodeData} (w : text) : Prop :=
  ∃ y s1 m s2 d,
    w = y ++ s1 :: m ++ s2 :: d
    ∧ length y = 4 ∧ all_of unicode_digit y
    ∧ date_sep s1 = true
    ∧ 1 ≤ length m ≤ 2 ∧ all_of unicode_digit m
    ∧ date_sep s2 = true
    ∧ 1 ≤ length d ≤ 2 ∧ all_of unicode_digit d.

(** [m] is the first match of grammar [G] in [t]: it starts at the least
    position where a word of [G] starts, and is the longest word of [G]
    there. *)
Definition first_match (G : text → Prop) (t m : text) : Prop :=
  ∃ pre post,
    t = pre ++ m ++ post ∧ G m
    ∧ ∀ pre' m' post',
        t = pre' ++ m' ++ post' → G m' →
        length pre ≤ length pre'
        ∧ (length pre' = length pre → length m' ≤ length m).

Definition no_match (G : text → Prop) (t : text) : Prop :=
  ∀ pre m post, t = pre ++ m ++ post → ¬ G m.

(** ** Vocabulary of the proofs *)

(** The number of leading characters of [s] that are in the class [p]. *)
Fixpoint run_length (p : char → bool) (s : text) : nat :=
  match s with
  | c :: s' => if p c then S (run_length p s') else 0
  | [] => 0
  end.

(** One comma group of [amount_re]: [(?:,[0-9]{3})]. *)
Definition amount_group : regex :=
  Seq (Cls (λ c, (c =? comma)%N)) (Rep (Cls ascii_digit) 3 3).

Definition not_comma_next (s : text) : Prop :=
  match s with
  | [] => True
  | c :: _ => c ≠ comma
  end.

(** What [build_csv_row] puts into the first cell. *)
Definition date_cell (date : text) : text :=
  if is_empty date then [] else replace_char hyphen slash date.

(** The text of the pages read so far: each page that has text, followed by
    a line feed. *)
Definition page_lines (pages : list (option text)) : text :=
  concat (map (λ p, match p with
                    | Some (c :: s) => (c :: s) ++ newline
                    | _ => []
                    end) pages).

(** The third field of [parse_info]. *)
Definition parsed_name `{U : UnicodeData} (t : text) : text := (parse_info t).2.

Definition no_linebreak (w : text) : Prop :=
  Forall (λ c, is_linebreak c = false) w.

(** The input left where a line ends: nothing, or a line boundary. *)
Definition at_line_end (rest : text) : Prop :=
  match rest with
  | [] => True
  | c :: _ => is_linebreak c = true
  end.

(** A text that begins and ends with a character that is not
    whitespace. *)
Definition trimmed (w : text) : Prop :=
  (∃ c r, w = c :: r ∧ isspace c = false)
  ∧ (∃ r c, w = r ++ [c] ∧ isspace c = false).

(** A date whose two separators are slashes. *)
Definition slash_date `{U : UnicodeData} (w : text) : Prop :=
  ∃ y m d,
    w = y ++ slash :: m ++ slash :: d
    ∧ length y = 4 ∧ all_of unicode_digit y
    ∧ 1 ≤ length m ≤ 2 ∧ all_of unicode_digit m
    ∧ 1 ≤ length d ≤ 2 ∧ all_of unicode_digit d.

(** A page without text, or with whitespace only. *)
Definition blank_page (p : option text) : Prop :=
  match p with
  | None => True
  | Some s => all_of isspace s
  end.

Section PipelineVocabulary.
Context `{U : UnicodeData} `{I : Imaging}.

(** The text obtained for a file of the listing: lines 122 to 126. *)
Definition file_text (file : drive_file) : M text :=
  doc ← lift (download_pdf file);
  document_text doc.

(** [m] reads nothing of the state: it appends [rows] to the file and
    [cs] to the calls, and ends in [o]. *)
Definition appends {A} (m : M A) (rows : list (list text))
    (cs : list call) (o : outcome A) : Prop :=
  ∀ st, m st = ({| csv := csv st ++ rows; calls := calls st ++ cs |}, o).

(** What [pdf_to_images] does to each page image. *)
Definition preprocess (img : image) : image :=
  point (λ x, if (x <? 128)%Z then 0%Z else 255%Z) (grayscale img).

(** The row written for a text. *)
Definition row_of (t : text) : list text :=
  let '(date, amount, partner) := parse_info t in
  <[33:=partner]> (<[15:=amount]> (<[0:=date_cell date]>
    (replicate (length CSV_COLUMNS) []))).

(** The reader fails with [e] after the pages [before] were read: on
    opening the file (no page was read) or on a page. *)
Definition reader_fails (doc : document)
    (before : list (option text)) (e : exn) : Prop :=
  (pdfplumber_pages doc = Raise e ∧ before = [])
  ∨ ∃ after, pdfplumber_pages doc = Ok (map Ok before ++ Raise e :: after).
(** The pages whose text the extractor has read when it returns: all of
    them, or those before the one that failed. *)
Definition pages_read (doc : document) (pages : list (option text)) : Prop :=
  pdfplumber_pages doc = Ok (map Ok pages) ∨ ∃ e, reader_fails doc pages e.

(** The calls made for a document that goes through OCR with [n] pages
    submitted to recognition. *)
Definition ocr_path_calls (n : nat) : list call :=
  [Call_extract_text_from_pdf; Call_pdf_to_images; Call_convert_from_path;
   Call_ocr_images] ++ replicate n Call_image_to_string.
End PipelineVocabulary.

(** ** Sample libraries and documents, for the closed instances *)

(** A Unicode database with two of the decimal-digit blocks beyond ASCII
    (Arabic-Indic and fullwidth), for the examples. *)
Definition two_blocks : UnicodeData :=
  {| Nd_beyond_ascii c :=
       ((1632 <=? c) && (c <=? 1641) || (65296 <=? c) && (c <=? 65305))%N |}.

(** Images that are the text printed on them, which OCR reads back: an
    imaging library for the examples. *)
Definition printed_pages : Imaging :=
  {| image := list N;
     grayscale := id;
     point := λ _ img, img;
     image_to_string := λ img, Ok img |}.

(** The same, except that OCR fails on an image with nothing on it. *)
Definition fragile_pages : Imaging :=
  {| image := list N;
     grayscale := id;
     point := λ _ img, img;
     image_to_string := λ img,
       match img with
       | [] => Raise (Exception (utf8 "tesseract failed"))
       | _ => Ok img
       end |}.

Module Examples.
#[local] Existing Instance two_blocks.
#[local] Existing Instance printed_pages.

Definition text_pdf (t : string) : document :=
  {| pdfplumber_pages := Ok [Ok (Some (utf8 t))];
     convert_from_path := Ok [utf8 t] |}.

(** No text layer, and pages that cannot be rasterised. *)
Definition broken_pdf : document :=
  {| pdfplumber_pages := Ok [Ok None];
     convert_from_path := Raise (Exception (utf8 "Unable to get page count")) |}.

(** A scan: no text layer, one page image. *)
Definition scanned_pdf (t : string) : document :=
  {| pdfplumber_pages := Ok [Ok None];
     convert_from_path := Ok [utf8 t] |}.

(** A text layer whose second page cannot be read. *)
Definition half_read_pdf : document :=
  {| pdfplumber_pages :=
       Ok [Ok (Some (utf8 "ACME Corp")); Raise (Exception (utf8 "bad xref"))];
     convert_from_path := Ok [] |}.

Definition in_drive (n : string) (doc : document) : drive_file :=
  {| file_id := utf8 n; file_name := utf8 n; download_pdf := Ok doc |}.

Definition first_text : string := "ACME Corp 2024-03-15 12,345".
Definition third_text : string := "Bolt Ltd 2024/4/1 980".

Definition three_files : list drive_file :=
  [ in_drive "1" (text_pdf first_text);
    in_drive "2" broken_pdf;
    in_drive "3" (text_pdf third_text) ].
End Examples.

Module MoreExamples.
#[local] Existing Instance two_blocks.

(** Two pages with text around a page without. *)
Definition three_page_pdf : document (I:=printed_pages) :=
  {| pdfplumber_pages :=
       Ok [Ok (Some (utf8 "ACME Corp")); Ok None; Ok (Some (utf8 "Total 980"))];
     convert_from_path := Ok [] |}.

(** A text layer of spaces, and no page image. *)
Definition empty_scan : document (I:=printed_pages) :=
  {| pdfplumber_pages := Ok [Ok (Some (utf8 "  ")); Ok None];
     convert_from_path := Ok [] |}.

(** A scan whose second page is an image with nothing on it. *)
Definition smudged_scan : document (I:=fragile_pages) :=
  {| pdfplumber_pages := Ok [Ok None];
     convert_from_path :=
       Ok ([utf8 "ACME Corp"; []; utf8 "Total 980"]
             : list (@image fragile_pages)) |}.

Definition smudged_file : drive_file (I:=fragile_pages) :=
  {| file_id := utf8 "7"; file_name := utf8 "7";
     download_pdf := Ok smudged_scan |}.

(** A file that cannot be downloaded. *)
Definition unreachable_file : drive_file (I:=printed_pages) :=
  {| file_id := utf8 "8"; file_name := utf8 "8";
     download_pdf := Raise (Exception (utf8 "HttpError 404")) |}.
End MoreExamples.

(** ** The model at work *)

Example utf8_decodes_kanji : utf8 "月日" = [26376; 26085]%N.
Proof. reflexivity. Qed.

Example splitlines_keeps_inner_blank_line :
  splitlines [97; 13; 10; 10; 98; 10]%N = [[97]; []; [98]]%N.
Proof. reflexivity. Qed.

Example parse_info_of_an_invoice :
  parse_info (U:=two_blocks)
    (newline ++ utf8 "  ACME Corp " ++ newline
     ++ utf8 "Invoice of 2024-03-15" ++ newline ++ utf8 "Total: JPY 12,345")
  = (utf8 "2024-03-15", utf8 "202", utf8 "ACME Corp").
Proof. reflexivity. Qed.

Example amount_stops_after_three_digits :
  search amount_re (utf8 "1234,567") = Some (utf8 "123").
Proof. reflexivity. Qed.

Example date_in_fullwidth_digits :
  parsed_date (U:=two_blocks) (utf8 "２０２４/０３/１５")
  = utf8 "２０２４/０３/１５"
  ∧ parsed_amount (U:=two_blocks) (utf8 "２０２４/０３/１５") = [].
Proof. split; reflexivity. Qed.

Example surrogate_in_the_name_stops_the_batch :
  process_pdfs (U:=two_blocks) (I:=printed_pages)
    {| list_pdf_files :=
         Ok [ {| file_id := utf8 "1"; file_name := utf8 "1";
                 download_pdf :=
                   Ok {| pdfplumber_pages := Ok [Ok (Some [55296%N; 65%N])];
                         convert_from_path := Ok [] |} |};
              Examples.in_drive "3" (Examples.text_pdf Examples.third_text) ] |}
    start
  = ({| csv := [CSV_COLUMNS]; calls := [Call_extract_text_from_pdf] |},
     Raise UnicodeEncodeError).
Proof. reflexivity. Qed.

Example scan_goes_through_ocr :
  process_file (U:=two_blocks) (I:=printed_pages)
    (Examples.in_drive "9" (Examples.scanned_pdf "Bolt Ltd 980")) start
  = ({| csv := [row_of (U:=two_blocks) (utf8 "Bolt Ltd 980" ++ newline)];
        calls := [Call_extract_text_from_pdf; Call_pdf_to_images;
                  Call_convert_from_path; Call_ocr_images;
                  Call_image_to_string] |}, Ok ()).
Proof. reflexivity. Qed.

(** ** The engine finds words of the language *)

Section RepetitionSound.
Variable run : text → list text.
Variable L : text → Prop.
Hypothesis run_sound :
  ∀ s rest, rest ∈ run s → ∃ w, s = w ++ rest ∧ L w.

Lemma rep_run_sound hi : ∀ lo s rest,
  rest ∈ rep_run run hi lo s →
  ∃ ws, s = concat ws ++ rest ∧ lo ≤ length ws ≤ hi ∧ Forall L ws.
Proof using run_sound.
  induction hi as [|hi IH]; intros lo s rest Hin; simpl in Hin.
  - destruct (decide (lo = 0)) as [->|]; [|by apply elem_of_nil in Hin].
    apply list_elem_of_singleton in Hin as ->. by exists [].
  - apply elem_of_app in Hin as [Hin|Hin].
    + apply list_elem_of_bind in Hin as (mid & Hrest & Hmid).
      apply run_sound in Hmid as (w & -> & Hw).
      apply IH in Hrest as (ws & -> & Hlen & Hws).
      exists (w :: ws). simpl. rewrite <-(assoc_L (++)).
      split_and!; [done|lia|lia|by constructor].
    + destruct (decide (lo = 0)) as [->|]; [|by apply elem_of_nil in Hin].
      apply list_elem_of_singleton in Hin as ->. exists [].
      split_and!; [done|simpl; lia|simpl; lia|done].
Qed.

Lemma star_run_sound fuel : ∀ s rest,
  rest ∈ star_run run fuel s →
  ∃ ws, s = concat ws ++ rest ∧ Forall L ws.
Proof using run_sound.
  induction fuel as [|fuel IH]; intros s rest Hin; simpl in Hin.
  - apply list_elem_of_singleton in Hin as ->. by exists [].
  - apply elem_of_app in Hin as [Hin|Hin].
    + apply list_elem_of_bind in Hin as (mid & Hrest & Hmid).
      apply run_sound in Hmid as (w & -> & Hw).
      destruct (decide _); [|by apply elem_of_nil in Hrest].
      apply IH in Hrest as (ws & -> & Hws).
      exists (w :: ws). simpl. rewrite <-(assoc_L (++)).
      split; [done|by constructor].
    + apply list_elem_of_singleton in Hin as ->. by exists [].
Qed.
End RepetitionSound.

Lemma rx_run_sound r : ∀ s rest,
  rest ∈ rx_run r s → ∃ w, s = w ++ rest ∧ lang r w.
Proof.
  induction r as [p|r1 IH1 r2 IH2|r IH lo hi|r IH]; intros s rest Hin;
    simpl in Hin.
  - destruct s as [|c s]; [by apply elem_of_nil in Hin|].
    destruct (p c) eqn:Hp; [|by apply elem_of_nil in Hin].
    apply list_elem_of_singleton in Hin as ->. exists [c]. simpl. eauto.
  - apply list_elem_of_bind in Hin as (mid & Hrest & Hmid).
    apply IH1 in Hmid as (w1 & -> & Hw1).
    apply IH2 in Hrest as (w2 & -> & Hw2).
    exists (w1 ++ w2). rewrite <-(assoc_L (++)). simpl. eauto 6.
  - apply (rep_run_sound _ _ IH) in Hin as (ws & -> & Hlen & Hws).
    exists (concat ws). simpl. eauto.
  - apply (star_run_sound _ _ IH) in Hin as (ws & -> & Hws).
    exists (concat ws). simpl. eauto.
Qed.

Lemma rx_run_shorter r s rest : rest ∈ rx_run r s → length rest ≤ length s.
Proof.
  intros (w & -> & _)%rx_run_sound. rewrite length_app. lia.
Qed.

Lemma rx_match_sound r s m :
  rx_match r s = Some m → ∃ rest, s = m ++ rest ∧ lang r m.
Proof.
  unfold rx_match. destruct (rx_run r s) as [|rest l] eqn:Hrun; [done|].
  intros [= <-].
  assert (rest ∈ rx_run r s) as (w & -> & Hw)%rx_run_sound
    by (rewrite Hrun; left).
  rewrite length_app.
  replace (length w + length rest - length rest) with (length w) by lia.
  rewrite take_app_length. eauto.
Qed.

(** ** From the languages of the two patterns to the grammars *)

Lemma lang_cls_concat p ws :
  Forall (lang (Cls p)) ws →
  all_of p (concat ws) ∧ length (concat ws) = length ws.
Proof.
  induction 1 as [|w ws (c & -> & Hc) _ [IH1 IH2]]; simpl.
  - split; [constructor|done].
  - split; [by constructor|by rewrite IH2].
Qed.

Lemma lang_amount_re w : lang amount_re w → amount_numeral w.
Proof.
  intros (lead & tail & -> & (ws & -> & Hlen & Hws) & (gs & -> & Hgs)).
  apply lang_cls_concat in Hws as [Hlead Hleadlen].
  assert (∃ groups, concat gs = concat (map (cons comma) groups)
            ∧ Forall (λ g, length g = 3 ∧ all_of ascii_digit g) groups)
    as (groups & -> & Hgroups).
  { clear -Hgs. induction Hgs as [|g gs Hg _ (groups & IH & Hgroups)].
    - by exists [].
    - destruct Hg as (c & ds & -> & (c' & [= ->] & Hc) & (ds' & -> & Hn & Hds)).
      apply lang_cls_concat in Hds as [Hds Hdslen].
      apply N.eqb_eq in Hc as ->.
      exists (concat ds' :: groups). simpl. rewrite IH. split; [done|].
      constructor; [|done]. split; [lia|done]. }
  exists (concat ws), groups. rewrite Hleadlen. done.
Qed.

Lemma lang_date_re `{U : UnicodeData} w : lang date_re w → date_numeral w.
Proof.
  intros (y & ? & -> & (ys & -> & Hylen & Hys)
          & (? & ? & -> & (s1 & -> & Hs1)
          & (m & ? & -> & (ms & -> & Hmlen & Hms)
          & (? & d & -> & (s2 & -> & Hs2) & (ds & -> & Hdlen & Hds))))).
  apply lang_cls_concat in Hys as [Hy Hyl].
  apply lang_cls_concat in Hms as [Hm Hml].
  apply lang_cls_concat in Hds as [Hd Hdl].
  exists (concat ys), s1, (concat ms), s2, (concat ds).
  rewrite Hyl, Hml, Hdl. split_and!; try done; lia.
Qed.

(** ** The engine's first choice is the longest word *)

Lemma run_length_app p w s :
  all_of p w → run_length p (w ++ s) = length w + run_length p s.
Proof. induction 1 as [|c w Hc _ IH]; simpl; [done|]. by rewrite Hc, IH. Qed.

Lemma rep_cls_first p hi : ∀ lo s,
  lo ≤ hi `min` run_length p s →
  ∃ tl, rx_run (Rep (Cls p) lo hi) s = drop (hi `min` run_length p s) s :: tl.
Proof.
  simpl. induction hi as [|hi IH]; intros lo s Hlo; simpl.
  - assert (lo = 0) as -> by (simpl in Hlo; lia). by exists [].
  - destruct s as [|c s]; simpl in *.
    { assert (lo = 0) as -> by lia. by exists []. }
    destruct (p c) eqn:Hp.
    + rewrite bind_singleton.
      destruct (IH (pred lo) s) as [tl ->]; [lia|]. eauto.
    + assert (lo = 0) as -> by lia. by exists [].
Qed.

Lemma bind_first {A B} (f : A → list B) l x tl y tl' :
  l = x :: tl → f x = y :: tl' → ∃ tl'', l ≫= f = y :: tl''.
Proof. intros -> Hf. rewrite bind_cons, Hf. simpl. eauto. Qed.

Lemma star_run_first r fuel s :
  ∃ rest tl, star_run (rx_run r) fuel s = rest :: tl ∧ length rest ≤ length s.
Proof.
  destruct (star_run (rx_run r) fuel s) as [|rest tl] eqn:Hrun.
  - destruct fuel; simpl in Hrun; [done|]. by destruct (_ ≫= _).
  - exists rest, tl. split; [done|].
    assert (rest ∈ star_run (rx_run r) fuel s) as Hin by (rewrite Hrun; left).
    apply (star_run_sound _ _ (rx_run_sound r)) in Hin as (ws & -> & _).
    rewrite length_app. lia.
Qed.

Lemma amount_group_run g s :
  length g = 3 → all_of ascii_digit g →
  rx_run amount_group (comma :: g ++ s) = [s].
Proof.
  intros Hlen Hg. destruct g as [|a [|b [|c [|]]]]; try done.
  apply Forall_cons in Hg as [Ha Hg]. apply Forall_cons in Hg as [Hb Hg].
  apply Forall_cons in Hg as [Hc _].
  simpl. rewrite Ha. simpl. rewrite Hb. simpl. by rewrite Hc.
Qed.

Lemma star_groups_first groups : ∀ fuel post,
  Forall (λ g, length g = 3 ∧ all_of ascii_digit g) groups →
  length groups ≤ fuel →
  ∃ rest tl,
    star_run (rx_run amount_group) fuel
      (concat (map (cons comma) groups) ++ post) = rest :: tl
    ∧ length rest ≤ length post.
Proof.
  induction groups as [|g groups IH]; intros fuel post Hgroups Hfuel.
  - apply star_run_first.
  - apply Forall_cons in Hgroups as [[Hlen Hg] Hgroups].
    destruct fuel as [|fuel]; [simpl in Hfuel; lia|].
    destruct (IH fuel post Hgroups) as (rest & tl & Hrun & Hrest);
      [simpl in Hfuel; lia|].
    cbn [map concat star_run]. rewrite <-!(assoc_L (++)).
    change ((comma :: g) ++ ?x) with (comma :: g ++ x).
    rewrite amount_group_run, bind_singleton by done.
    rewrite decide_True by (simpl; rewrite !length_app; lia).
    rewrite Hrun. exists rest, (tl ++ [comma :: g ++ concat (map (cons comma) groups) ++ post]).
    done.
Qed.

Lemma length_groups_text groups :
  length groups ≤ length (concat (map (cons comma) groups)).
Proof.
  induction groups as [|g groups IH]; simpl; [done|].
  rewrite length_app. lia.
Qed.

(** At a position where a numeral starts, the engine's first choice for
    [amount_re] leaves no more input than that numeral does. *)
Lemma amount_re_first m' post' :
  amount_numeral m' →
  ∃ rest tl,
    rx_run amount_re (m' ++ post') = rest :: tl ∧ length rest ≤ length post'.
Proof.
  intros (lead & groups & -> & Hlen & Hlead & Hgroups).
  rewrite <-!(assoc_L (++)).
  set (s := lead ++ concat (map (cons comma) groups) ++ post').
  destruct (rep_cls_first ascii_digit 3 1 s) as [tl Hrep].
  { subst s. rewrite run_length_app by done. lia. }
  assert (∃ rest tl',
            rx_run (Star amount_group)
                   (drop (3 `min` run_length ascii_digit s) s) = rest :: tl'
            ∧ length rest ≤ length post') as (rest & tl' & Hstar & Hrest).
  { destruct groups as [|g groups].
    - destruct (star_run_first amount_group
                  (length (drop (3 `min` run_length ascii_digit s) s))
                  (drop (3 `min` run_length ascii_digit s) s))
        as (rest & tl' & Hrun & Hrest).
      exists rest, tl'. split; [done|].
      etrans; [done|]. rewrite length_drop. subst s.
      rewrite run_length_app by done. cbn [map concat app].
      rewrite length_app. lia.
    - assert (run_length ascii_digit s = length lead) as ->.
      { subst s. rewrite run_length_app by done. simpl. lia. }
      replace (3 `min` length lead) with (length lead) by lia.
      subst s. rewrite drop_app_length. apply star_groups_first; [done|].
      rewrite length_app. etrans; [apply length_groups_text|lia]. }
  destruct (bind_first (rx_run (Star amount_group)) _ _ _ _ _ Hrep Hstar)
    as [tl'' Hrun].
  exists rest, tl''. done.
Qed.

Lemma date_sep_not_digit `{U : UnicodeData} c :
  date_sep c = true → unicode_digit c = false.
Proof.
  unfold date_sep, unicode_digit, ascii_digit.
  intros [->%N.eqb_eq| ->%N.eqb_eq]%orb_true_iff; reflexivity.
Qed.

Lemma cls_run p c s : p c = true → rx_run (Cls p) (c :: s) = [s].
Proof. simpl. by intros ->. Qed.

Lemma date_re_first `{U : UnicodeData} m' post' :
  date_numeral m' →
  ∃ rest tl,
    rx_run date_re (m' ++ post') = rest :: tl ∧ length rest ≤ length post'.
Proof.
  intros (y & s1 & m & s2 & d & -> & Hy & Hyd & Hs1 & Hm & Hmd & Hs2 & Hd & Hdd).
  pose proof (date_sep_not_digit _ Hs1) as Hn1.
  pose proof (date_sep_not_digit _ Hs2) as Hn2.
  rewrite <-(assoc_L (++)). cbn [app]. rewrite <-(assoc_L (++)). cbn [app].
  (* the day *)
  destruct (rep_cls_first unicode_digit 2 1 (d ++ post')) as [tl5 H5].
  { rewrite run_length_app by done. lia. }
  (* the month *)
  destruct (rep_cls_first unicode_digit 2 1 (m ++ s2 :: d ++ post'))
    as [tl3 H3].
  { rewrite run_length_app by done. lia. }
  rewrite run_length_app in H3 by done. cbn [run_length] in H3.
  rewrite Hn2 in H3. replace (2 `min` (length m + 0)) with (length m) in H3 by lia.
  rewrite drop_app_length in H3.
  (* the year *)
  destruct (rep_cls_first unicode_digit 4 4 (y ++ s1 :: m ++ s2 :: d ++ post'))
    as [tl1 H1].
  { rewrite run_length_app by done. lia. }
  rewrite run_length_app in H1 by done. cbn [run_length] in H1.
  rewrite Hn1 in H1. replace (4 `min` (length y + 0)) with (length y) in H1 by lia.
  rewrite drop_app_length in H1.
  (* chaining the five parts, last to first *)
  pose proof (cls_run date_sep s2 (d ++ post') Hs2) as H4.
  destruct (bind_first _ _ _ _ _ _ H4 H5) as [tl45 H45].
  destruct (bind_first (rx_run (Seq (Cls date_sep) (Rep (Cls unicode_digit) 1 2)))
              _ _ _ _ _ H3 H45) as [tl345 H345].
  pose proof (cls_run date_sep s1 (m ++ s2 :: d ++ post') Hs1) as H2.
  destruct (bind_first
              (rx_run (Seq (Rep (Cls unicode_digit) 1 2)
                        (Seq (Cls date_sep) (Rep (Cls unicode_digit) 1 2))))
              _ _ _ _ _ H2 H345) as [tl2345 H2345].
  destruct (bind_first
              (rx_run (Seq (Cls date_sep) (Seq (Rep (Cls unicode_digit) 1 2)
                        (Seq (Cls date_sep) (Rep (Cls unicode_digit) 1 2)))))
              _ _ _ _ _ H1 H2345) as [tl' Hrun].
  eexists _, tl'. split; [exact Hrun|].
  rewrite length_drop, length_app, run_length_app by done. lia.
Qed.

(** ** [re.search] finds the first match of the grammar *)

Section Search.
Variable r : regex.
Variable G : text → Prop.
Hypothesis r_sound : ∀ w, lang r w → G w.
Hypothesis r_first : ∀ m' post', G m' →
  ∃ rest tl, rx_run r (m' ++ post') = rest :: tl ∧ length rest ≤ length post'.

Lemma rx_match_grammar s m :
  rx_match r s = Some m → ∃ rest, s = m ++ rest ∧ G m.
Proof using r_sound.
  intros (rest & -> & Hm)%rx_match_sound. eauto.
Qed.

Lemma rx_match_longest m' post' :
  G m' → ∃ m, rx_match r (m' ++ post') = Some m ∧ length m' ≤ length m.
Proof using r_first.
  intros (rest & tl & Hrun & Hrest)%(r_first _ post').
  unfold rx_match. rewrite Hrun. eexists. split; [done|].
  assert (length rest ≤ length (m' ++ post')).
  { apply (rx_run_shorter r). rewrite Hrun. left. }
  rewrite length_take, length_app in *. lia.
Qed.

Lemma search_some t : ∀ m, search r t = Some m → first_match G t m.
Proof using r_sound r_first.
  induction t as [|c t IH]; intros m; simpl.
  - destruct (rx_match r []) as [m0|] eqn:Hm; [|done].
    intros [= ->]. apply rx_match_grammar in Hm as (rest & Ht & Hm).
    exists [], rest. split_and!; [done..|].
    intros pre' m' post' Ht' Hm'. split; [simpl; lia|].
    symmetry in Ht'. apply app_eq_nil in Ht' as [-> [-> _]%app_eq_nil].
    simpl. lia.
  - destruct (rx_match r (c :: t)) as [m0|] eqn:Hm.
    + intros [= ->]. pose proof Hm as (rest & Ht & HGm)%rx_match_grammar.
      exists [], rest. split_and!; [done..|].
      intros pre' m' post' Ht' Hm'. split; [simpl; lia|].
      intros ->%nil_length_inv. simpl in Ht'.
      destruct (rx_match_longest m' post' Hm') as (m2 & Hm2 & Hlen).
      rewrite <-Ht', Hm in Hm2. by injection Hm2 as ->.
    + intros (pre & post & -> & HGm & Hleast)%IH.
      exists (c :: pre), post. split_and!; [done..|].
      intros pre' m' post' Ht' Hm'.
      destruct pre' as [|c' pre'].
      * destruct (rx_match_longest m' post' Hm') as (m2 & Hm2 & _).
        simpl in Ht'. by rewrite <-Ht', Hm in Hm2.
      * injection Ht' as <- Ht'.
        destruct (Hleast _ _ _ Ht' Hm') as [Hpre Hlen].
        simpl. split; [lia|]. intros. apply Hlen. lia.
Qed.

Lemma search_none t : search r t = None → no_match G t.
Proof using r_first.
  induction t as [|c t IH]; simpl.
  - destruct (rx_match r []) eqn:Hm; [done|]. intros _ pre m post Ht Hm'.
    symmetry in Ht. apply app_eq_nil in Ht as [-> [-> ->]%app_eq_nil].
    destruct (rx_match_longest [] [] Hm') as (m2 & Hm2 & _).
    simpl in Hm2. by rewrite Hm in Hm2.
  - destruct (rx_match r (c :: t)) eqn:Hm; [done|].
    intros Hs pre m post Ht Hm'. destruct pre as [|c' pre].
    + destruct (rx_match_longest m post Hm') as (m2 & Hm2 & _).
      simpl in Ht. by rewrite <-Ht, Hm in Hm2.
    + injection Ht as <- Ht. by apply (IH Hs pre m post).
Qed.
End Search.

Lemma first_match_unique G t m1 m2 :
  first_match G t m1 → first_match G t m2 → m1 = m2.
Proof.
  intros (pre1 & post1 & Ht1 & HG1 & H1) (pre2 & post2 & Ht2 & HG2 & H2).
  destruct (H1 _ _ _ Ht2 HG2) as [Hp1 Hl1].
  destruct (H2 _ _ _ Ht1 HG1) as [Hp2 Hl2].
  assert (length pre1 = length pre2) as Hpre by lia.
  assert (length m1 = length m2) as Hm by (specialize (Hl1 (eq_sym Hpre)); specialize (Hl2 Hpre); lia).
  rewrite Ht1 in Ht2. apply app_inj_1 in Ht2 as [_ Ht2]; [|done].
  by apply app_inj_1 in Ht2 as [-> _].
Qed.

Lemma first_match_not_no_match G t m : first_match G t m → ¬ no_match G t.
Proof. intros (pre & post & Ht & HG & _) Hno. by apply (Hno _ _ _ Ht). Qed.

(** ** The amount and the date of [parse_info] *)

Lemma remove_comma_digits m :
  amount_numeral m → all_of ascii_digit (remove_char comma m).
Proof.
  intros (lead & groups & -> & _ & Hlead & Hgroups).
  assert (Forall (λ c, ascii_digit c = true ∨ c = comma)
            (lead ++ concat (map (cons comma) groups))) as Hall.
  { apply Forall_app. split; [by eapply Forall_impl; [done|]; eauto|].
    induction Hgroups as [|g groups [_ Hg] _ IH]; simpl; [done|].
    constructor; [by right|]. apply Forall_app. split; [|done].
    eapply Forall_impl; [done|]; eauto. }
  unfold remove_char, all_of.
  induction Hall as [|c l [Hc| ->] _ IH].
  - done.
  - rewrite filter_cons. case_decide; [by constructor|done].
  - rewrite filter_cons. by case_decide.
Qed.

Lemma search_amount t :
  match search amount_re t with
  | Some m => first_match amount_numeral t m
  | None => no_match amount_numeral t
  end.
Proof.
  destruct (search amount_re t) as [m|] eqn:Hs.
  - by apply (search_some _ _ lang_amount_re amount_re_first).
  - by apply (search_none _ _ amount_re_first).
Qed.

Lemma search_date `{U : UnicodeData} t :
  match search date_re t with
  | Some m => first_match date_numeral t m
  | None => no_match date_numeral t
  end.
Proof.
  destruct (search date_re t) as [m|] eqn:Hs.
  - by apply (search_some _ _ lang_date_re date_re_first).
  - by apply (search_none _ _ date_re_first).
Qed.

(** *** C2 *)

(** C2: for every text, the amount is the first grouped-digit numeral of
    the text (leftmost, and the longest one there) with its commas
    removed, a plain digit string; a text whose first numeral is
    "12,345" gives "12345", one whose first numeral is "1,234,567" gives
    "1234567"; when no numeral occurs the amount is the empty string. *)
Theorem C2_amount_is_first_numeral_without_commas `{U : UnicodeData} (t : text) :
  ((∃ m, first_match amount_numeral t m
         ∧ parsed_amount t = remove_char comma m)
   ∨ (no_match amount_numeral t ∧ parsed_amount t = []))
  ∧ all_of ascii_digit (parsed_amount t)
  ∧ (first_match amount_numeral t (utf8 "12,345") →
     parsed_amount t = utf8 "12345")
  ∧ (first_match amount_numeral t (utf8 "1,234,567") →
     parsed_amount t = utf8 "1234567")
  ∧ parsed_amount (utf8 "12,345") = utf8 "12345"
  ∧ parsed_amount (utf8 "1,234,567") = utf8 "1234567".
Proof.
  pose proof (search_amount t) as Hs.
  unfold parsed_amount, parse_info. cbn [fst snd].
  destruct (search amount_re t) as [m|].
  - split_and!; [left; eauto|by apply remove_comma_digits; destruct Hs as (?&?&?&?&?)| | |done..].
    + intros Hm. by rewrite (first_match_unique _ _ _ _ Hs Hm).
    + intros Hm. by rewrite (first_match_unique _ _ _ _ Hs Hm).
  - split_and!; [right; eauto|constructor| | |done..].
    + intros Hm. by destruct (first_match_not_no_match _ _ _ Hm).
    + intros Hm. by destruct (first_match_not_no_match _ _ _ Hm).
Qed.

(** *** C7 *)

(** C7: for every text, the date is the first substring (leftmost, and the
    longest one there) of the form YYYY separator M(M) separator D(D),
    the separators among [/] and [-], taken as it stands: no calendar
    check is made, and month 13 is accepted; when no such substring occurs
    the date is the empty string. *)
Theorem C7_date_is_first_numeric_date `{U : UnicodeData} (t : text) :
  ((∃ m, first_match date_numeral t m ∧ parsed_date t = m)
   ∨ (no_match date_numeral t ∧ parsed_date t = []))
  ∧ (∀ m, first_match date_numeral t m → parsed_date t = m)
  ∧ parsed_date (utf8 "2024/13/45") = utf8 "2024/13/45"
  ∧ parsed_date (utf8 "due 2024-13-1, paid") = utf8 "2024-13-1".
Proof.
  pose proof (search_date t) as Hs.
  unfold parsed_date, parse_info. cbn [fst snd].
  destruct (search date_re t) as [m|].
  - split_and!; [left; eauto| |done..].
    intros m' Hm'. by rewrite (first_match_unique _ _ _ _ Hs Hm').
  - split_and!; [right; eauto| |done..].
    intros m' Hm'. by destruct (first_match_not_no_match _ _ _ Hm').
Qed.

(** *** C10 *)

Lemma run_length_le p s : run_length p s ≤ length s.
Proof. induction s as [|c s IH]; simpl; [done|]. destruct (p c); lia. Qed.

Lemma star_group_stops fuel s :
  not_comma_next s → star_run (rx_run amount_group) fuel s = [s].
Proof.
  intros Hs. destruct fuel as [|fuel]; [done|]. cbn [star_run].
  assert (rx_run amount_group s = []) as ->; [|done].
  destruct s as [|c s]; [done|]. simpl in *.
  by apply N.eqb_neq in Hs as ->.
Qed.

(** Where digits start and no comma follows the first three of them, the
    match is those digits. *)
Lemma amount_match_plain s :
  1 ≤ run_length ascii_digit s →
  not_comma_next (drop (3 `min` run_length ascii_digit s) s) →
  rx_match amount_re s = Some (take (3 `min` run_length ascii_digit s) s).
Proof.
  intros Hrun Hnext.
  destruct (rep_cls_first ascii_digit 3 1 s) as [tl Hrep]; [lia|].
  unfold rx_match. change (rx_run amount_re s)
    with (rx_run (Rep (Cls ascii_digit) 1 3) s ≫= rx_run (Star amount_group)).
  rewrite Hrep, bind_cons. cbn [rx_run]. rewrite star_group_stops by done.
  cbn [app]. rewrite length_drop. f_equal. f_equal.
  pose proof (run_length_le ascii_digit s). lia.
Qed.

Lemma amount_match_no_digit c s :
  ascii_digit c = false → rx_match amount_re (c :: s) = None.
Proof. intros Hc. unfold rx_match. simpl. by rewrite Hc. Qed.

Lemma search_amount_skips pre s :
  Forall (λ c, ascii_digit c = false) pre →
  search amount_re (pre ++ s) = search amount_re s.
Proof.
  induction 1 as [|c pre Hc _ IH]; [done|].
  cbn [app search]. by rewrite amount_match_no_digit.
Qed.

Lemma remove_comma_plain w : all_of ascii_digit w → remove_char comma w = w.
Proof.
  unfold remove_char. induction 1 as [|c w Hc _ IH]; [done|].
  rewrite filter_cons, IH. case_decide as Hcomma; [done|].
  by rewrite Hcomma in Hc.
Qed.

Lemma amount_match_run run post :
  all_of ascii_digit run →
  1 ≤ length run →
  (3 < length run
   ∨ match post with
     | [] => True
     | c :: _ => ascii_digit c = false ∧ c ≠ comma
     end) →
  rx_match amount_re (run ++ post) = Some (take 3 run).
Proof.
  intros Hrun Hlen Hnext.
  destruct (decide (3 < length run)) as [Hlong|Hshort].
  - assert (3 `min` run_length ascii_digit (run ++ post) = 3) as Hk.
    { rewrite run_length_app by done. lia. }
    rewrite amount_match_plain; rewrite ?Hk.
    + by rewrite take_app_le by lia.
    + rewrite run_length_app by done. lia.
    + rewrite drop_app_le by lia.
      destruct (drop 3 run) as [|c rest] eqn:Hdrop.
      { apply (f_equal length) in Hdrop. rewrite length_drop in Hdrop.
        simpl in Hdrop. lia. }
      assert (c ∈ run) as Hc.
      { apply (subseteq_drop 3 run). rewrite Hdrop. left. }
      unfold all_of in Hrun. rewrite Forall_forall in Hrun.
      apply Hrun in Hc. simpl. by intros ->.
  - destruct Hnext as [?|Hnext]; [lia|].
    assert (3 `min` run_length ascii_digit (run ++ post) = length run) as Hk.
    { rewrite run_length_app by done.
      assert (run_length ascii_digit post = 0) as ->; [|lia].
      destruct post as [|c post]; [done|].
      cbn [run_length]. by destruct Hnext as [-> _]. }
    rewrite amount_match_plain; rewrite ?Hk.
    + rewrite take_app_length. by rewrite take_ge by lia.
    + rewrite run_length_app by done. lia.
    + rewrite drop_app_length. destruct post; [done|]. apply Hnext.
Qed.

(** C10, as the code has it: the amount search is not anchored to a
    currency context and takes the leftmost digits of the text, three of
    them at most: when the first digit run of the text has four digits or
    more, or is followed by neither a digit nor a comma, the amount is the
    first three digits at most of that run (the whole run when it has up
    to three digits), and not a numeral further on. *)
Theorem C10_amount_is_start_of_first_digit_run `{U : UnicodeData}
    (pre run post : text) :
  Forall (λ c, ascii_digit c = false) pre →
  all_of ascii_digit run →
  1 ≤ length run →
  (3 < length run
   ∨ match post with
     | [] => True
     | c :: _ => ascii_digit c = false ∧ c ≠ comma
     end) →
  parsed_amount (pre ++ run ++ post) = take 3 run.
Proof.
  intros Hpre Hrun Hlen Hnext.
  unfold parsed_amount, parse_info. cbn [fst snd].
  rewrite search_amount_skips by done.
  pose proof (amount_match_run run post Hrun Hlen Hnext) as Hm.
  destruct run as [|c run]; [simpl in Hlen; lia|].
  cbn [app search]. cbn [app] in Hm. rewrite Hm.
  apply remove_comma_plain. by apply Forall_take.
Qed.

(** The year of a date that precedes the total, through the theorem. *)
Lemma C10_witness :
  Forall (λ c, ascii_digit c = false) (utf8 "Date ")
  ∧ all_of ascii_digit (utf8 "2024")
  ∧ 1 ≤ length (utf8 "2024")
  ∧ 3 < length (utf8 "2024")
  ∧ parsed_amount (U:=two_blocks)
      (utf8 "Date " ++ utf8 "2024" ++ utf8 "/03/15 Total 12,345")
    = take 3 (utf8 "2024").
Proof.
  assert (3 < length (utf8 "2024")) as Hlong by (vm_compute; lia).
  split_and!; [repeat constructor..|exact Hlong|].
  apply (C10_amount_is_start_of_first_digit_run (U:=two_blocks)
           (utf8 "Date ") (utf8 "2024") (utf8 "/03/15 Total 12,345")).
  - repeat constructor.
  - repeat constructor.
  - vm_compute. lia.
  - left. exact Hlong.
Defined.

(** The year of a date that comes first is not the amount: its first
    three digits are. *)
Lemma C10_year_is_cut_to_three_digits :
  utf8 "2024/03/15 12,345" = [] ++ utf8 "2024" ++ utf8 "/03/15 12,345"
  ∧ parsed_amount (U:=two_blocks) (utf8 "2024/03/15 12,345") = utf8 "202"
  ∧ parsed_amount (U:=two_blocks) (utf8 "2024/03/15 12,345") ≠ utf8 "2024".
Proof. split_and!; [reflexivity|reflexivity|discriminate]. Qed.

(** ** The row *)

Lemma build_csv_row_ok date amount partner :
  build_csv_row date amount partner
  = Ok (<[33:=partner]> (<[15:=amount]> (<[0:=date_cell date]>
          (replicate (length CSV_COLUMNS) [])))).
Proof. reflexivity. Qed.

(** C5: whatever the three fields are, present or empty, the row has as
    many cells as the column schema has names, which is 44. *)
Theorem C5_row_has_schema_length (date amount partner : text) :
  ∃ row,
    build_csv_row date amount partner = Ok row
    ∧ length row = length CSV_COLUMNS
    ∧ length row = 44.
Proof.
  eexists. split; [apply build_csv_row_ok|].
  by rewrite !length_insert, length_replicate.
Qed.

(** C6: the cell of the transaction date (the first one, [月日]) holds the
    date with each [-] replaced by [/] and nothing else changed: it has
    the length of the date and the same character wherever the date has no
    [-]; "2024-03-15" gives "2024/03/15" and "2024/3/1" stays as it is. *)
Theorem C6_date_cell_replaces_hyphens (date amount partner : text) :
  ∃ row cell,
    build_csv_row date amount partner = Ok row
    ∧ CSV_COLUMNS !! 0 = Some (utf8 "月日")
    ∧ row !! 0 = Some cell
    ∧ length cell = length date
    ∧ (∀ i c, date !! i = Some c →
         cell !! i = Some (if decide (c = hyphen) then slash else c))
    ∧ (date = utf8 "2024-03-15" → cell = utf8 "2024/03/15")
    ∧ (date = utf8 "2024/3/1" → cell = utf8 "2024/3/1").
Proof.
  exists (<[33:=partner]> (<[15:=amount]> (<[0:=date_cell date]>
            (replicate (length CSV_COLUMNS) [])))), (date_cell date).
  split_and!; [apply build_csv_row_ok|done|done| | |by intros ->..].
  - unfold date_cell, replace_char. destruct date; [done|].
    cbn [is_empty]. by rewrite length_map.
  - intros i c Hi. unfold date_cell, replace_char.
    destruct date as [|c0 date]; [done|]. cbn [is_empty].
    rewrite list_lookup_fmap, Hi. cbn. f_equal.
    destruct (N.eqb_spec c hyphen); by case_decide.
Qed.

(** The cells of the row, one by one. *)
Lemma build_csv_row_cells date amount partner :
  ∃ row,
    build_csv_row date amount partner = Ok row
    ∧ row !! 0 = Some (date_cell date)
    ∧ row !! 15 = Some amount
    ∧ row !! 33 = Some partner
    ∧ ∀ i, i < 44 → i ≠ 0 → i ≠ 15 → i ≠ 33 → row !! i = Some [].
Proof.
  eexists. split; [apply build_csv_row_ok|].
  split_and!; [done..|].
  intros i Hi H0 H15 H33.
  rewrite !list_lookup_insert_ne by done.
  by apply lookup_replicate_2.
Qed.

(** C8, on the code: the partner is written into cell 33, whose column is
    [取引先コード] (the partner's code); the cell of [取引先名] (the
    partner's name), which the comment on that line names, is cell 34 and
    stays empty. *)
Theorem C8_partner_written_to_code_column (date amount partner : text) :
  ∃ row,
    build_csv_row date amount partner = Ok row
    ∧ CSV_COLUMNS !! 33 = Some (utf8 "取引先コード")
    ∧ row !! 33 = Some partner
    ∧ CSV_COLUMNS !! 34 = Some (utf8 "取引先名")
    ∧ row !! 34 = Some []
    ∧ CSV_COLUMNS !! 15 = Some (utf8 "借方取引金額")
    ∧ row !! 15 = Some amount.
Proof.
  eexists. split; [apply build_csv_row_ok|]. by split_and!.
Qed.

(** ** The pipeline only appends *)

Section PipelineFacts.
Context `{U : UnicodeData} `{I : Imaging}.

Lemma appends_ret {A} (a : A) : appends (mret a) [] [] (Ok a).
Proof. intros [rows cs]. cbv [mret M_ret]. simpl. by rewrite !app_nil_r. Qed.

Lemma appends_lift {A} (o : outcome A) : appends (lift o) [] [] o.
Proof. intros [rows cs]. unfold lift. simpl. by rewrite !app_nil_r. Qed.

Lemma appends_called c : appends (called c) [] [c] (Ok ()).
Proof. intros [rows cs]. unfold called. simpl. by rewrite !app_nil_r. Qed.

Lemma appends_writerow row :
  encodable row = true → appends (writerow row) [row] [] (Ok ()).
Proof.
  intros Hrow [rows cs]. unfold writerow. rewrite Hrow. simpl.
  by rewrite !app_nil_r.
Qed.

Lemma appends_writerow_fails row :
  encodable row = false →
  appends (writerow row) [] [] (Raise UnicodeEncodeError).
Proof.
  intros Hrow [rows cs]. unfold writerow. rewrite Hrow. simpl.
  by rewrite !app_nil_r.
Qed.

Lemma encodable_CSV_COLUMNS : encodable CSV_COLUMNS = true.
Proof. by vm_compute. Qed.

Lemma appends_bind_ok {A B} (m : M A) (f : A → M B)
    r1 c1 a r2 c2 rows cs o :
  appends m r1 c1 (Ok a) →
  rows = r1 ++ r2 → cs = c1 ++ c2 →
  appends (f a) r2 c2 o →
  appends (m ≫= f) rows cs o.
Proof.
  intros Hm -> -> Hf st. cbv [mbind M_bind]. rewrite Hm, Hf. simpl.
  by rewrite !(assoc_L (++)).
Qed.

Lemma appends_bind_raise {A B} (m : M A) (f : A → M B) r1 c1 e :
  appends m r1 c1 (Raise e) → appends (m ≫= f) r1 c1 (Raise e).
Proof. intros Hm st. cbv [mbind M_bind]. by rewrite Hm. Qed.

(** One step of a sequence: [first_part] settles what the first
    computation appends, the rest of the goal is the continuation. *)
Ltac bind_ok first_part :=
  eapply appends_bind_ok;
  [ first_part
  | first [ simpl; reflexivity | symmetry; apply app_nil_r ]
  | first [ simpl; reflexivity | symmetry; apply app_nil_r ]
  | ].

Lemma pdf_to_images_appends doc :
  appends (pdf_to_images doc) []
    [Call_pdf_to_images; Call_convert_from_path]
    (match convert_from_path doc with
     | Ok images => Ok (map preprocess images)
     | Raise e => Raise e
     end).
Proof.
  unfold pdf_to_images.
  bind_ok ltac:(apply appends_called).
  bind_ok ltac:(apply appends_called).
  destruct (convert_from_path doc) as [images|e].
  - bind_ok ltac:(apply appends_lift). apply appends_ret.
  - apply appends_bind_raise, appends_lift.
Qed.

Lemma ocr_pages_appends images : ∀ t,
  ∃ cs o, appends (ocr_pages images t) [] cs o
          ∧ Forall (λ c, c = Call_image_to_string) cs.
Proof.
  induction images as [|img images IH]; intros t; cbn [ocr_pages].
  - exists [], (Ok t). split; [apply appends_ret|done].
  - destruct (image_to_string img) as [page|e].
    + destruct (IH (t ++ page ++ newline)) as (cs & o & Hrest & Hcs).
      exists (Call_image_to_string :: cs), o. split; [|by constructor].
      bind_ok ltac:(apply appends_called).
      bind_ok ltac:(apply appends_lift). exact Hrest.
    + exists [Call_image_to_string], (Raise e). split; [|by constructor].
      bind_ok ltac:(apply appends_called).
      apply appends_bind_raise, appends_lift.
Qed.

(** The calls made for the text of a document: the extraction, then the
    OCR path when the text is blank and nothing otherwise. *)
Lemma document_text_appends doc :
  ∃ cs o,
    appends (document_text doc) [] (Call_extract_text_from_pdf :: cs) o
    ∧ (strip (extract_text_from_pdf doc) = [] →
       ∃ cs', cs = Call_pdf_to_images :: Call_convert_from_path :: cs'
              ∧ (∀ e, convert_from_path doc = Raise e →
                   cs' = [] ∧ o = Raise e)
              ∧ (∀ images, convert_from_path doc = Ok images →
                   ∃ cs'', cs' = Call_ocr_images :: cs''
                     ∧ Forall (λ c, c = Call_image_to_string) cs''))
    ∧ (strip (extract_text_from_pdf doc) ≠ [] →
       cs = [] ∧ o = Ok (extract_text_from_pdf doc)).
Proof.
  unfold document_text.
  destruct (strip (extract_text_from_pdf doc)) as [|c s] eqn:Hstrip;
    cbn [is_empty].
  - pose proof (pdf_to_images_appends doc) as Himg.
    destruct (convert_from_path doc) as [images|e].
    + destruct (ocr_pages_appends (map preprocess images) [])
        as (cs & o & Hocr & Hcs).
      exists (Call_pdf_to_images :: Call_convert_from_path
              :: Call_ocr_images :: cs), o.
      split_and!; [|intros _|done].
      * bind_ok ltac:(apply appends_called).
        bind_ok ltac:(exact Himg).
        unfold ocr_images.
        bind_ok ltac:(apply appends_called). exact Hocr.
      * eexists. split_and!; [done|done|].
        intros ? [= <-]. eauto.
    + exists [Call_pdf_to_images; Call_convert_from_path], (Raise e).
      split_and!; [|intros _|done].
      * bind_ok ltac:(apply appends_called).
        by apply appends_bind_raise.
      * exists []. split_and!; [done| |done]. by intros ? [= <-].
  - exists [], (Ok (extract_text_from_pdf doc)).
    split_and!; [|done|done].
    bind_ok ltac:(apply appends_called). apply appends_ret.
Qed.

Lemma emit_row_appends t :
  encodable (row_of t) = true →
  appends (emit_row t) [row_of t] [] (Ok ()).
Proof.
  unfold emit_row, row_of. destruct (parse_info t) as [[date amount] partner].
  rewrite build_csv_row_ok. intros Hrow.
  bind_ok ltac:(apply appends_lift). by apply appends_writerow.
Qed.

Lemma emit_row_fails t :
  encodable (row_of t) = false →
  appends (emit_row t) [] [] (Raise UnicodeEncodeError).
Proof.
  unfold emit_row, row_of. destruct (parse_info t) as [[date amount] partner].
  rewrite build_csv_row_ok. intros Hrow.
  bind_ok ltac:(apply appends_lift). by apply appends_writerow_fails.
Qed.

(** The row of the text is written, or nothing is and the encoding error
    is raised; no call is made either way. *)
Lemma emit_row_outcome t :
  ∃ rows o,
    appends (emit_row t) rows [] o
    ∧ ((rows = [row_of t] ∧ o = Ok ())
       ∨ (rows = [] ∧ o = Raise UnicodeEncodeError)).
Proof.
  destruct (encodable (row_of t)) eqn:Hrow.
  - exists [row_of t], (Ok ()). split; [by apply emit_row_appends|by left].
  - exists [], (Raise UnicodeEncodeError).
    split; [by apply emit_row_fails|by right].
Qed.

(** A file adds one row when it goes through and none when it fails. *)
Lemma process_file_appends file :
  ∃ rows cs o,
    appends (process_file file) rows cs o
    ∧ (o = Ok () → length rows = 1)
    ∧ (∀ e, o = Raise e → rows = []).
Proof.
  unfold process_file. destruct (download_pdf file) as [doc|e] eqn:Hdl.
  - destruct (document_text_appends doc) as (cs & o & Htext & _).
    destruct o as [t|e].
    + destruct (emit_row_outcome t) as (rows & o & Hemit & Hcases).
      exists rows, (Call_extract_text_from_pdf :: cs), o.
      split_and!.
      * bind_ok ltac:(apply appends_lift).
        bind_ok ltac:(exact Htext). exact Hemit.
      * by destruct Hcases as [[-> _]|[_ ->]].
      * by destruct Hcases as [[_ ->]|[-> _]].
    + exists [], (Call_extract_text_from_pdf :: cs), (Raise e).
      split_and!; [|done|done].
      bind_ok ltac:(apply appends_lift).
      by apply appends_bind_raise.
  - exists [], [], (Raise e). split_and!; [|done|done].
    apply appends_bind_raise, appends_lift.
Qed.
Lemma process_file_outcome file rows cs o :
  appends (process_file file) rows cs o → (process_file file start).2 = o.
Proof. intros Hf. by rewrite Hf. Qed.

(** The loop stops at the first file that raises. *)
Lemma for_each_app {A} (body : A → M ()) l1 l2 st :
  for_each body (l1 ++ l2) st
  = (for_each body l1 ≫= λ _, for_each body l2) st.
Proof.
  revert st. induction l1 as [|a l1 IH]; intros st; [done|].
  cbn [app for_each]. cbv [mbind M_bind] in *.
  destruct (body a st) as [st' [[]|e]]; [apply IH|done].
Qed.

Lemma for_each_all_ok files :
  Forall (λ f, (process_file f start).2 = Ok ()) files →
  ∃ rows cs,
    appends (for_each process_file files) rows cs (Ok ())
    ∧ length rows = length files.
Proof.
  induction 1 as [|f files Hf _ (rows & cs & Hrest & Hlen)]; cbn [for_each].
  - exists [], []. split; [apply appends_ret|done].
  - destruct (process_file_appends f) as (rows1 & cs1 & o & Hfile & Hone & _).
    rewrite (process_file_outcome _ _ _ _ Hfile) in Hf. subst o.
    exists (rows1 ++ rows), (cs1 ++ cs). split.
    + by eapply appends_bind_ok.
    + rewrite length_app, Hone by done. simpl. lia.
Qed.

(** A file whose text layer is blank and whose pages cannot be
    rasterised: nothing is written and the exception leaves the loop
    body. *)
Lemma process_file_unrasterizable file doc e :
  download_pdf file = Ok doc →
  strip (extract_text_from_pdf doc) = [] →
  convert_from_path doc = Raise e →
  appends (process_file file) []
    [Call_extract_text_from_pdf; Call_pdf_to_images; Call_convert_from_path]
    (Raise e).
Proof.
  intros Hdl Hblank Hraster. unfold process_file. rewrite Hdl.
  bind_ok ltac:(apply appends_lift).
  destruct (document_text_appends doc) as (cs & o & Htext & Hocr & _).
  destruct (Hocr Hblank) as (cs' & -> & Hfail & _).
  destruct (Hfail e Hraster) as [-> ->].
  by apply appends_bind_raise.
Qed.

Lemma process_pdfs_appends files rows cs o :
  appends (for_each process_file files) rows cs o →
  appends (process_pdfs {| list_pdf_files := Ok files |})
    (CSV_COLUMNS :: rows) cs o.
Proof.
  intros Hloop. unfold process_pdfs. cbn [list_pdf_files].
  bind_ok ltac:(apply appends_lift).
  bind_ok ltac:(apply appends_writerow, encodable_CSV_COLUMNS). exact Hloop.
Qed.
End PipelineFacts.

(** ** The batch *)

(** *** C1 *)

(** Three documents, the second of which cannot be rasterised: the
    exception leaves [process_pdfs], and the file holds the header and the
    row of the first document only, not the row of the third. *)
Lemma C1_third_document_is_lost :
  let run :=
    process_pdfs (U:=two_blocks) (I:=printed_pages)
      {| list_pdf_files := Ok Examples.three_files |} start in
  run.2 = Raise (Exception (utf8 "Unable to get page count"))
  ∧ csv run.1
    = [CSV_COLUMNS;
       row_of (U:=two_blocks) (utf8 Examples.first_text ++ newline)]
  ∧ csv run.1
    ≠ [CSV_COLUMNS;
       row_of (U:=two_blocks) (utf8 Examples.first_text ++ newline);
       row_of (U:=two_blocks) (utf8 Examples.third_text ++ newline)].
Proof. split_and!; [reflexivity|reflexivity|discriminate]. Qed.

(** C1, as the code has it: when the text layer of a document is blank
    and its rasterisation fails, the exception is not caught by
    [process_pdfs] and the batch ends there.  The output holds the header
    and one row for each document listed before the failing one, in the
    order of the listing, exactly as if the listing had ended before it:
    the failing document leaves nothing in the output, and the documents
    listed after it are not processed: the last calls made are the three
    of the failing document, and the run ends in the state and with the
    outcome it has when the listing stops at that document. *)
Theorem C1_rasterization_failure_ends_batch `{U : UnicodeData} `{I : Imaging}
    (before after : list drive_file) (file : drive_file)
    (doc : document) (e : exn) :
  Forall (λ f, (process_file f start).2 = Ok ()) before →
  download_pdf file = Ok doc →
  strip (extract_text_from_pdf doc) = [] →
  convert_from_path doc = Raise e →
  let all := process_pdfs {| list_pdf_files := Ok (before ++ file :: after) |} start in
  let earlier := process_pdfs {| list_pdf_files := Ok before |} start in
  all.2 = Raise e
  ∧ earlier.2 = Ok ()
  ∧ csv all.1 = csv earlier.1
  ∧ (∃ rows, csv all.1 = CSV_COLUMNS :: rows ∧ length rows = length before)
  ∧ calls all.1
    = calls earlier.1
      ++ [Call_extract_text_from_pdf; Call_pdf_to_images;
          Call_convert_from_path]
  ∧ all = process_pdfs {| list_pdf_files := Ok (before ++ [file]) |} start.
Proof.
  intros Hbefore Hdl Hblank Hraster.
  destruct (for_each_all_ok before Hbefore) as (rows & cs & Hloop & Hlen).
  pose proof (process_file_unrasterizable file doc e Hdl Hblank Hraster)
    as Hfile.
  assert (∀ later,
            appends (for_each process_file (before ++ file :: later))
              rows (cs ++ [Call_extract_text_from_pdf; Call_pdf_to_images;
                           Call_convert_from_path]) (Raise e)) as Hall.
  { intros later st. rewrite for_each_app. revert st.
    eapply appends_bind_ok; [exact Hloop|symmetry; apply app_nil_r|done|].
    cbn [for_each]. by apply appends_bind_raise. }
  pose proof (process_pdfs_appends _ _ _ _ (Hall after)) as Hafter.
  pose proof (process_pdfs_appends _ _ _ _ (Hall [])) as Hstop.
  apply process_pdfs_appends in Hloop.
  cbv zeta. rewrite Hafter, Hstop, Hloop. cbn [fst snd csv calls start app].
  split_and!; [done..| |done|done]. exists rows. by rewrite Hafter.
Qed.

(** The three sample files, through the theorem. *)
Lemma C1_witness :
  Forall (λ f, (process_file (U:=two_blocks) (I:=printed_pages) f start).2 = Ok ())
    [Examples.in_drive "1" (Examples.text_pdf Examples.first_text)]
  ∧ download_pdf (I:=printed_pages) (Examples.in_drive "2" Examples.broken_pdf)
    = Ok Examples.broken_pdf
  ∧ strip (extract_text_from_pdf (I:=printed_pages) Examples.broken_pdf) = []
  ∧ convert_from_path (I:=printed_pages) Examples.broken_pdf
    = Raise (Exception (utf8 "Unable to get page count"))
  ∧ (process_pdfs (U:=two_blocks) (I:=printed_pages)
       {| list_pdf_files := Ok Examples.three_files |} start).2
    = Raise (Exception (utf8 "Unable to get page count")).
Proof.
  split_and!; [by repeat constructor|reflexivity..|].
  apply (C1_rasterization_failure_ends_batch (U:=two_blocks) (I:=printed_pages)
           [Examples.in_drive "1" (Examples.text_pdf Examples.first_text)]
           [Examples.in_drive "3" (Examples.text_pdf Examples.third_text)]
           (Examples.in_drive "2" Examples.broken_pdf)
           Examples.broken_pdf
           (Exception (utf8 "Unable to get page count"))).
  - by repeat constructor.
  - reflexivity.
  - reflexivity.
  - reflexivity.
Defined.

(** *** C3 *)

Ltac not_listed H :=
  repeat (apply elem_of_cons in H as [?|H]; [done|]);
  by apply elem_of_nil in H.

(** C3: for every downloaded document, the OCR path is entered (the pages
    are rasterised) if and only if the text of its text layer is empty
    once stripped of whitespace; recognition follows whenever the
    rasterisation succeeds; and when the stripped text is not empty no
    call of the OCR path is made at all. *)
Theorem C3_ocr_path_iff_text_layer_blank `{U : UnicodeData} `{I : Imaging}
    (file : drive_file) (doc : document) (st : state) :
  download_pdf file = Ok doc →
  ∃ cs,
    calls (process_file file st).1
    = calls st ++ Call_extract_text_from_pdf :: cs
    ∧ (Call_pdf_to_images ∈ cs ↔ strip (extract_text_from_pdf doc) = [])
    ∧ (Call_convert_from_path ∈ cs ↔ strip (extract_text_from_pdf doc) = [])
    ∧ (Call_ocr_images ∈ cs ↔
         strip (extract_text_from_pdf doc) = []
         ∧ ∃ images, convert_from_path doc = Ok images)
    ∧ (strip (extract_text_from_pdf doc) ≠ [] → cs = []).
Proof.
  intros Hdl.
  destruct (document_text_appends doc) as (cs & o & Htext & Hblank & Hfull).
  exists cs. split.
  { unfold process_file. rewrite Hdl. cbv [mbind M_bind lift].
    rewrite Htext. destruct o as [t|e]; [|by rewrite app_nil_r].
    destruct (emit_row_outcome t) as (rows & o' & -> & _). simpl.
    by rewrite !app_nil_r. }
  destruct (decide (strip (extract_text_from_pdf doc) = [])) as [He|Hne].
  - destruct (Hblank He) as (cs' & -> & Hfail & Hgood).
    split_and!; [split; [done|intros _; repeat constructor]..| |done].
    destruct (convert_from_path doc) as [images|e].
    + destruct (Hgood images eq_refl) as (cs'' & -> & _).
      split; [eauto|intros _; repeat constructor].
    + destruct (Hfail e eq_refl) as [-> _].
      split; [intros Hin; exfalso; not_listed Hin|]. by intros [_ [? ?]].
  - destruct (Hfull Hne) as [-> _].
    split_and!; [split; [by intros ?%elem_of_nil|done]..| |done].
    split; [by intros ?%elem_of_nil|]. by intros [? _].
Qed.

(** A document with a text layer, through the theorem: no call of the OCR
    path. *)
Lemma C3_witness :
  download_pdf (I:=printed_pages)
    (Examples.in_drive "1" (Examples.text_pdf Examples.first_text))
  = Ok (Examples.text_pdf Examples.first_text)
  ∧ ∃ cs,
      calls (process_file (U:=two_blocks) (I:=printed_pages)
               (Examples.in_drive "1" (Examples.text_pdf Examples.first_text))
               start).1
      = calls start ++ Call_extract_text_from_pdf :: cs
      ∧ cs = [].
Proof.
  split; [reflexivity|].
  destruct (C3_ocr_path_iff_text_layer_blank (U:=two_blocks) (I:=printed_pages)
              (Examples.in_drive "1" (Examples.text_pdf Examples.first_text))
              (Examples.text_pdf Examples.first_text) start)
    as (cs & Hcalls & _ & _ & _ & Hnone).
  - reflexivity.
  - exists cs. split; [exact Hcalls|]. apply Hnone. vm_compute. discriminate.
Defined.

(** *** C4 *)

Lemma read_pages_until_failure `{I : Imaging} before e after : ∀ t,
  (read_pages (map Ok before ++ Raise e :: after) t).1 = t ++ page_lines before.
Proof.
  induction before as [|p before IH]; intros t; cbn [map app read_pages].
  - unfold page_lines. simpl. by rewrite app_nil_r.
  - change (page_lines (p :: before))
      with (match p with
            | Some (c :: s) => (c :: s) ++ newline
            | _ => []
            end ++ page_lines before).
    destruct p as [[|c s]|]; rewrite IH; [done| |done].
    rewrite <-(assoc_L (++)). cbn [app]. by rewrite <-(assoc_L (++)).
Qed.

Lemma page_lines_blank before :
  Forall (λ p, p = None ∨ p = Some []) before → page_lines before = [].
Proof.
  unfold page_lines. induction 1 as [|p before [->| ->] _ IH]; done.
Qed.

(** A reader failure on the second page leaves the text of the first page
    as the result, and the OCR path is not taken. *)
Lemma C4_text_before_failure_is_kept :
  reader_fails (I:=printed_pages) Examples.half_read_pdf
    [Some (utf8 "ACME Corp")] (Exception (utf8 "bad xref"))
  ∧ extract_text_from_pdf (I:=printed_pages) Examples.half_read_pdf
    = utf8 "ACME Corp" ++ newline
  ∧ extract_text_from_pdf (I:=printed_pages) Examples.half_read_pdf ≠ []
  ∧ calls (document_text (I:=printed_pages) Examples.half_read_pdf start).1
    = [Call_extract_text_from_pdf].
Proof.
  split_and!; [right; by exists []|reflexivity|discriminate|reflexivity].
Qed.

(** C4, as the code has it: when the PDF reader fails during the direct
    extraction, on opening the file or on any page, the extractor does not
    propagate the failure and returns the text of the pages read before
    the failure, which is the empty string when no page with text was
    read; the caller goes on to the OCR path exactly when that text is
    empty once stripped. *)
Theorem C4_extractor_returns_text_read_before_failure `{I : Imaging}
    (doc : document) (before : list (option text)) (e : exn) :
  reader_fails doc before e →
  extract_text_from_pdf doc = page_lines before
  ∧ (Forall (λ p, p = None ∨ p = Some []) before →
     extract_text_from_pdf doc = [])
  ∧ ∀ st, ∃ cs o,
      document_text doc st
      = ({| csv := csv st;
            calls := calls st ++ Call_extract_text_from_pdf :: cs |}, o)
      ∧ (Call_pdf_to_images ∈ cs ↔ strip (page_lines before) = []).
Proof.
  intros Hfail.
  assert (extract_text_from_pdf doc = page_lines before) as Htext.
  { unfold extract_text_from_pdf.
    destruct Hfail as [[-> ->]|[after ->]]; [done|].
    by rewrite read_pages_until_failure. }
  split_and!; [done| |].
  - intros Hblank. rewrite Htext. by apply page_lines_blank.
  - intros st. rewrite <-Htext.
    destruct (document_text_appends doc) as (cs & o & Happ & Hblank & Hfull).
    exists cs, o. split; [by rewrite Happ, app_nil_r|].
    destruct (decide (strip (extract_text_from_pdf doc) = [])) as [He|Hne].
    + destruct (Hblank He) as (cs' & -> & _). split; [done|]. by left.
    + destruct (Hfull Hne) as [-> _]. split; [by intros ?%elem_of_nil|done].
Qed.

(** The half-read document, through the theorem. *)
Lemma C4_witness :
  reader_fails (I:=printed_pages) Examples.half_read_pdf
    [Some (utf8 "ACME Corp")] (Exception (utf8 "bad xref"))
  ∧ extract_text_from_pdf (I:=printed_pages) Examples.half_read_pdf
    = page_lines [Some (utf8 "ACME Corp")].
Proof.
  assert (reader_fails (I:=printed_pages) Examples.half_read_pdf
            [Some (utf8 "ACME Corp")] (Exception (utf8 "bad xref"))) as Hfail.
  { right. exists []. reflexivity. }
  split; [exact Hfail|].
  exact (proj1 (C4_extractor_returns_text_read_before_failure
                  (I:=printed_pages) _ _ _ Hfail)).
Defined.

(** * Further properties of the code *)

(** ** Whitespace and lines *)

Lemma all_of_app p (a b : text) : all_of p (a ++ b) ↔ all_of p a ∧ all_of p b.
Proof. apply Forall_app. Qed.

Lemma linebreak_is_space c : is_linebreak c = true → isspace c = true.
Proof.
  unfold is_linebreak. rewrite !orb_true_iff, !andb_true_iff.
  rewrite !N.leb_le, !N.eqb_eq. intros Hc.
  assert (c = 10 ∨ c = 11 ∨ c = 12 ∨ c = 13 ∨ c = 28 ∨ c = 29 ∨ c = 30
          ∨ c = 133 ∨ c = 8232 ∨ c = 8233)%N as Hcases by lia.
  destruct_or!; subst c; reflexivity.
Qed.

Lemma lstrip_split s : ∃ ws, s = ws ++ lstrip s ∧ all_of isspace ws.
Proof.
  induction s as [|c s (ws & Hs & Hws)]; simpl.
  - exists []. split; [done|constructor].
  - destruct (isspace c) eqn:Hc.
    + exists (c :: ws). split; [by rewrite Hs at 1|by constructor].
    + exists []. split; [done|constructor].
Qed.

Lemma lstrip_blank s : all_of isspace s → lstrip s = [].
Proof. induction 1 as [|c s Hc _ IH]; simpl; [done|]. by rewrite Hc. Qed.

Lemma lstrip_head c r s : lstrip s = c :: r → isspace c = false.
Proof.
  induction s as [|c' s IH]; simpl; [done|].
  destruct (isspace c') eqn:Hc; [done|]. by intros [= <- _].
Qed.

Lemma lstrip_snoc l c : isspace c = false → lstrip (l ++ [c]) = lstrip l ++ [c].
Proof.
  intros Hc. induction l as [|c' l IH]; simpl; [by rewrite Hc|].
  by destruct (isspace c').
Qed.

Lemma rstrip_split s : ∃ ws, s = rstrip s ++ ws ∧ all_of isspace ws.
Proof.
  unfold rstrip. destruct (lstrip_split (reverse s)) as (ws & Hs & Hws).
  exists (reverse ws). split.
  - rewrite <-reverse_app, <-Hs. by rewrite reverse_involutive.
  - unfold all_of. by rewrite Forall_reverse.
Qed.

Lemma rstrip_cons c s : isspace c = false → rstrip (c :: s) = c :: rstrip s.
Proof.
  intros Hc. unfold rstrip.
  by rewrite reverse_cons, lstrip_snoc, reverse_app by done.
Qed.

Lemma strip_split s :
  ∃ ws1 ws2, s = ws1 ++ strip s ++ ws2
             ∧ all_of isspace ws1 ∧ all_of isspace ws2.
Proof.
  destruct (lstrip_split s) as (ws1 & Hs & Hws1).
  destruct (rstrip_split (lstrip s)) as (ws2 & Hl & Hws2).
  exists ws1, ws2. split; [|done]. unfold strip. by rewrite <-Hl.
Qed.

Lemma strip_blank s : strip s = [] ↔ all_of isspace s.
Proof.
  split.
  - intros Hs. destruct (strip_split s) as (ws1 & ws2 & Heq & H1 & H2).
    rewrite Heq, Hs. by apply all_of_app.
  - intros Hs. unfold strip. by rewrite lstrip_blank.
Qed.

Lemma strip_trimmed s : strip s ≠ [] → trimmed (strip s).
Proof.
  unfold strip. intros Hne. destruct (lstrip s) as [|c l] eqn:Hl; [done|].
  pose proof (lstrip_head _ _ _ Hl) as Hc. split.
  - rewrite rstrip_cons by done. eauto.
  - unfold rstrip in *.
    destruct (lstrip (reverse (c :: l))) as [|c' l'] eqn:Hr; [done|].
    rewrite reverse_cons. apply lstrip_head in Hr. eauto.
Qed.

Lemma first_nonblank_cons l ls :
  first_nonblank (l :: ls)
  = if is_empty (strip l) then first_nonblank ls else strip l.
Proof. reflexivity. Qed.

(** At a line boundary the current line is closed and a new one starts
    after the boundary, which is one character, or two for CR LF. *)
Lemma splitlines_from_break cur c s :
  is_linebreak c = true →
  ∃ sep next,
    s = sep ++ next ∧ all_of isspace sep ∧ length next ≤ length s
    ∧ splitlines_from cur (c :: s) = reverse cur :: splitlines_from [] next.
Proof.
  intros Hc. cbn [splitlines_from]. rewrite Hc.
  destruct s as [|c' s].
  - exists [], []. split_and!; [done|constructor|done|done].
  - destruct ((c =? 13)%N && (c' =? 10)%N) eqn:Hcrlf.
    + apply andb_true_iff in Hcrlf as [_ ->%N.eqb_eq].
      exists [10%N], s. split_and!; [done|by repeat constructor|simpl; lia|done].
    + exists [], (c' :: s). split_and!; [done|constructor|done|done].
Qed.

Lemma line_name l :
  no_linebreak l → strip l ≠ [] →
  ∃ ws1 ws2,
    l = ws1 ++ strip l ++ ws2
    ∧ all_of isspace ws1 ∧ all_of isspace ws2
    ∧ no_linebreak (strip l ++ ws2) ∧ trimmed (strip l).
Proof.
  intros Hl Hne. destruct (strip_split l) as (ws1 & ws2 & Heq & H1 & H2).
  exists ws1, ws2. split_and!; [done..| |by apply strip_trimmed].
  unfold no_linebreak in *. rewrite Heq in Hl.
  by apply Forall_app in Hl as [_ Hl].
Qed.

(** The first line that is not blank, in the text itself. *)
Lemma first_nonblank_splitlines_from s : ∀ cur,
  no_linebreak cur →
  first_nonblank (splitlines_from cur s) ≠ [] →
  ∃ pre ws2 rest,
    reverse cur ++ s
    = pre ++ first_nonblank (splitlines_from cur s) ++ ws2 ++ rest
    ∧ all_of isspace pre ∧ all_of isspace ws2
    ∧ no_linebreak (first_nonblank (splitlines_from cur s) ++ ws2)
    ∧ at_line_end rest
    ∧ trimmed (first_nonblank (splitlines_from cur s)).
Proof.
  induction s as [s IH] using (induction_ltof1 _ length). unfold ltof in IH.
  intros cur Hcur. destruct s as [|c s].
  - cbn [splitlines_from]. destruct (is_empty cur); [done|].
    rewrite first_nonblank_cons. cbn [first_nonblank].
    destruct (strip (reverse cur)) as [|x xs] eqn:Hstrip; [done|].
    cbn [is_empty]. intros _.
    destruct (line_name (reverse cur)) as (ws1 & ws2 & Heq & H1 & H2 & H3 & H4).
    { unfold no_linebreak. by rewrite Forall_reverse. }
    { by rewrite Hstrip. }
    rewrite Hstrip in *. exists ws1, ws2, [].
    rewrite !app_nil_r. by split_and!.
  - destruct (is_linebreak c) eqn:Hc.
    + destruct (splitlines_from_break cur c s Hc)
        as (sep & next & Hs & Hsep & Hlen & ->).
      rewrite first_nonblank_cons.
      destruct (strip (reverse cur)) as [|x xs] eqn:Hstrip; cbn [is_empty].
      * intros Hne.
        destruct (IH next ltac:(simpl; lia) [] ltac:(constructor) Hne)
          as (pre & ws2 & rest & Heq & H1 & H2 & H3 & H4 & H5).
        exists (reverse cur ++ c :: sep ++ pre), ws2, rest.
        split_and!; [|apply all_of_app; split|done..].
        -- rewrite Hs. cbn [reverse app] in Heq. rewrite Heq at 1.
           rewrite <-!(assoc_L (++)). cbn [app].
           by rewrite <-!(assoc_L (++)).
        -- by apply strip_blank.
        -- constructor; [by apply linebreak_is_space|]. by apply all_of_app.
      * intros _.
        destruct (line_name (reverse cur))
          as (ws1 & ws2 & Heq & H1 & H2 & H3 & H4).
        { unfold no_linebreak. by rewrite Forall_reverse. }
        { by rewrite Hstrip. }
        rewrite Hstrip in *. exists ws1, ws2, (c :: s).
        split_and!; [|done..].
        rewrite Heq at 1. by rewrite <-!(assoc_L (++)).
    + cbn [splitlines_from]. rewrite Hc. intros Hne.
      destruct (IH s ltac:(simpl; lia) (c :: cur)) as
        (pre & ws2 & rest & Heq & H1 & H2 & H3 & H4 & H5);
        [by constructor|done|].
      exists pre, ws2, rest. split_and!; [|done..].
      rewrite <-Heq, reverse_cons, <-(assoc_L (++)). done.
Qed.

(** When no line has anything but whitespace, the text has nothing but
    whitespace. *)
Lemma first_nonblank_none s : ∀ cur,
  first_nonblank (splitlines_from cur s) = [] →
  all_of isspace (reverse cur ++ s).
Proof.
  induction s as [s IH] using (induction_ltof1 _ length). unfold ltof in IH.
  intros cur. destruct s as [|c s].
  - cbn [splitlines_from]. rewrite app_nil_r.
    destruct cur as [|c0 cur]; [constructor|]. cbn [is_empty].
    rewrite first_nonblank_cons.
    destruct (strip (reverse (c0 :: cur))) eqn:Hstrip; [|done].
    intros _. by apply strip_blank.
  - destruct (is_linebreak c) eqn:Hc.
    + destruct (splitlines_from_break cur c s Hc)
        as (sep & next & Hs & Hsep & Hlen & ->).
      rewrite first_nonblank_cons.
      destruct (strip (reverse cur)) eqn:Hstrip; [|done]. cbn [is_empty].
      intros Hnext%(IH next ltac:(simpl; lia) []). cbn [reverse app] in Hnext.
      apply all_of_app. split; [by apply strip_blank|].
      constructor; [by apply linebreak_is_space|].
      rewrite Hs. by apply all_of_app.
    + cbn [splitlines_from]. rewrite Hc.
      intros Hnext%(IH s ltac:(simpl; lia) (c :: cur)).
      by rewrite reverse_cons, <-(assoc_L (++)) in Hnext.
Qed.

Lemma name_of_blank `{U : UnicodeData} (t : text) :
  all_of isspace t → parsed_name t = [].
Proof.
  unfold parsed_name, parse_info. cbn [snd]. unfold splitlines.
  intros Hblank.
  destruct (first_nonblank (splitlines_from [] t)) as [|x xs] eqn:Hname;
    [done|].
  destruct (first_nonblank_splitlines_from t [] ltac:(constructor))
    as (pre & ws2 & rest & Heq & _ & _ & _ & _ & [(c & r & Hc & Hsp) _]).
  { by rewrite Hname. }
  change (reverse [] ++ t) with t in Heq. rewrite Heq in Hblank.
  apply all_of_app in Hblank as [_ [Hblank _]%all_of_app].
  rewrite Hc in Hblank. apply Forall_cons in Hblank as [Hblank _].
  congruence.
Qed.

(** X1: the partner name is empty exactly when the text has nothing but
    whitespace; a text with one visible character always gives a name. *)
Theorem X1_name_empty_iff_text_blank `{U : UnicodeData} (t : text) :
  (parse_info t).2 = [] ↔ all_of isspace t.
Proof.
  split.
  - unfold parse_info. cbn [snd]. unfold splitlines.
    intros Hname. by apply (first_nonblank_none t []).
  - intros Hblank. by apply name_of_blank.
Qed.

(** X2: when the partner name is not empty it lies in the text as it
    stands: whitespace only comes before it, it begins and ends with a
    character that is not whitespace, and it runs to the end of its line
    but for trailing whitespace; it contains no line boundary. *)
Theorem X2_name_is_first_visible_line `{U : UnicodeData} (t : text) :
  parsed_name t ≠ [] →
  ∃ pre ws rest,
    t = pre ++ parsed_name t ++ ws ++ rest
    ∧ all_of isspace pre
    ∧ trimmed (parsed_name t)
    ∧ all_of isspace ws
    ∧ no_linebreak (parsed_name t ++ ws)
    ∧ at_line_end rest.
Proof.
  unfold parsed_name, parse_info. cbn [snd]. unfold splitlines. intros Hne.
  destruct (first_nonblank_splitlines_from t [] ltac:(constructor) Hne)
    as (pre & ws2 & rest & Heq & H1 & H2 & H3 & H4 & H5).
  exists pre, ws2, rest. by split_and!.
Qed.

Lemma X2_witness :
  parsed_name (U:=two_blocks) (newline ++ utf8 "  ACME Corp " ++ newline ++ utf8 "Total 980")
  ≠ []
  ∧ ∃ pre ws rest,
      newline ++ utf8 "  ACME Corp " ++ newline ++ utf8 "Total 980"
      = pre ++ utf8 "ACME Corp" ++ ws ++ rest
      ∧ all_of isspace pre.
Proof.
  assert (parsed_name (U:=two_blocks)
            (newline ++ utf8 "  ACME Corp " ++ newline ++ utf8 "Total 980")
          = utf8 "ACME Corp") as Hname by reflexivity.
  split; [by rewrite Hname|].
  destruct (X2_name_is_first_visible_line (U:=two_blocks)
              (newline ++ utf8 "  ACME Corp " ++ newline ++ utf8 "Total 980"))
    as (pre & ws & rest & Heq & Hpre & _).
  - by rewrite Hname.
  - rewrite Hname in Heq. exists pre, ws, rest. split; [exact Heq|exact Hpre].
Defined.

(** ** The amount, the date and the row *)

Lemma remove_comma_nonempty m : amount_numeral m → remove_char comma m ≠ [].
Proof.
  intros (lead & groups & -> & Hlen & Hlead & _).
  destruct Hlead as [|c lead Hc _]; [simpl in Hlen; lia|].
  unfold remove_char. cbn [app]. rewrite filter_cons.
  case_decide as Hcomma; [done|]. by rewrite Hcomma in Hc.
Qed.

Lemma amount_of_no_digit `{U : UnicodeData} (t : text) :
  Forall (λ c, ascii_digit c = false) t → parsed_amount t = [].
Proof.
  intros Hno. unfold parsed_amount, parse_info. cbn [fst snd].
  rewrite <-(app_nil_r t), search_amount_skips by done. reflexivity.
Qed.

(** X3: the amount is empty exactly when the text has no ASCII digit at
    all; one digit anywhere in the text, whatever it belongs to, makes an
    amount. *)
Theorem X3_amount_empty_iff_no_ascii_digit `{U : UnicodeData} (t : text) :
  (parse_info t).1.2 = [] ↔ Forall (λ c, ascii_digit c = false) t.
Proof.
  split; [|apply amount_of_no_digit].
  unfold parse_info. cbn [fst snd].
  pose proof (search_amount t) as Hs.
  destruct (search amount_re t) as [m|].
  - destruct Hs as (_ & _ & _ & Hm & _).
    intros Hnil. by destruct (remove_comma_nonempty m).
  - intros _. apply Forall_forall. intros c Hc.
    apply list_elem_of_split in Hc as (l1 & l2 & ->).
    destruct (ascii_digit c) eqn:Hdigit; [|done].
    destruct (Hs l1 [c] l2); [done|].
    exists [c], []. split_and!; [done|simpl; lia|simpl; lia| |done].
    by repeat constructor.
Qed.

(** X16: in a text without a comma the amount has three digits at most: a
    number of four digits or more that is written without separators is
    cut to its first three digits. *)
Theorem X16_amount_without_comma_has_three_digits_at_most
    `{U : UnicodeData} (t : text) :
  Forall (λ c, c ≠ comma) t →
  length (parsed_amount t) ≤ 3.
Proof.
  intros Hno. pose proof (search_amount t) as Hs.
  unfold parsed_amount, parse_info. cbn [fst snd].
  destruct (search amount_re t) as [m|]; [|simpl; lia].
  destruct Hs as (pre & post & -> & (lead & groups & -> & Hlen & _ & _) & _).
  apply Forall_app in Hno as [_ [Hno _]%Forall_app].
  apply Forall_app in Hno as [_ Hno].
  destruct groups as [|g groups].
  - cbn [map concat]. rewrite app_nil_r. unfold remove_char.
    etrans; [apply length_filter|lia].
  - cbn [map concat app] in Hno. by apply Forall_cons in Hno as [? _].
Qed.

Lemma X16_witness :
  Forall (λ c, c ≠ comma) (utf8 "Total 12345 yen")
  ∧ length (parsed_amount (U:=two_blocks) (utf8 "Total 12345 yen")) ≤ 3.
Proof.
  assert (Forall (λ c, c ≠ comma) (utf8 "Total 12345 yen")) as Hno
    by (repeat constructor; discriminate).
  split; [exact Hno|].
  exact (X16_amount_without_comma_has_three_digits_at_most (U:=two_blocks)
           (utf8 "Total 12345 yen") Hno).
Defined.

Lemma date_match_no_digit `{U : UnicodeData} c s :
  unicode_digit c = false → rx_match date_re (c :: s) = None.
Proof. intros Hc. unfold rx_match. simpl. by rewrite Hc. Qed.

Lemma search_date_skips `{U : UnicodeData} pre s :
  Forall (λ c, unicode_digit c = false) pre →
  search date_re (pre ++ s) = search date_re s.
Proof.
  induction 1 as [|c pre Hc _ IH]; [done|].
  cbn [app search]. by rewrite date_match_no_digit.
Qed.

Lemma replace_hyphen_digits `{U : UnicodeData} w :
  all_of unicode_digit w → replace_char hyphen slash w = w.
Proof.
  unfold replace_char. induction 1 as [|c w Hc _ IH]; [done|].
  cbn [map]. rewrite IH. f_equal.
  destruct (N.eqb_spec c hyphen) as [->|]; [|done]. by vm_compute in Hc.
Qed.

Lemma replace_hyphen_sep c :
  date_sep c = true → (if (c =? hyphen)%N then slash else c) = slash.
Proof.
  unfold date_sep. intros [->%N.eqb_eq| ->%N.eqb_eq]%orb_true_iff; reflexivity.
Qed.

Lemma replace_char_app old new (a b : text) :
  replace_char old new (a ++ b)
  = replace_char old new a ++ replace_char old new b.
Proof. apply map_app. Qed.

Lemma replace_char_cons old new c (w : text) :
  replace_char old new (c :: w)
  = (if (c =? old)%N then new else c) :: replace_char old new w.
Proof. reflexivity. Qed.

Lemma date_cell_replace w : date_cell w = replace_char hyphen slash w.
Proof. by destruct w. Qed.

Lemma date_numeral_length `{U : UnicodeData} w :
  date_numeral w → 8 ≤ length w ≤ 10.
Proof.
  intros (y & s1 & m & s2 & d & -> & Hy & _ & _ & Hm & _ & _ & Hd & _).
  rewrite length_app. cbn [length]. rewrite length_app. cbn [length]. lia.
Qed.

(** X4: for every text, the first cell of the row is empty when no date
    was found, and otherwise is the date found with both of its separators
    written as slashes: the date found is four digits, a separator, one or
    two digits, a separator, one or two digits, and the cell is the same
    digit groups with a slash in the place of each separator, 8 to 10
    characters in all. *)
Theorem X4_date_cell_is_empty_or_slash_date `{U : UnicodeData} (t : text) :
  ∃ row cell,
    (let '(date, amount, partner) := parse_info t in
     build_csv_row date amount partner) = Ok row
    ∧ row !! 0 = Some cell
    ∧ ((parsed_date t = [] ∧ cell = [])
       ∨ ∃ y s1 m s2 d,
           parsed_date t = y ++ s1 :: m ++ s2 :: d
           ∧ cell = y ++ slash :: m ++ slash :: d
           ∧ date_sep s1 = true ∧ date_sep s2 = true
           ∧ length y = 4 ∧ all_of unicode_digit y
           ∧ 1 ≤ length m ≤ 2 ∧ all_of unicode_digit m
           ∧ 1 ≤ length d ≤ 2 ∧ all_of unicode_digit d
           ∧ slash_date cell
           ∧ length cell = length (parsed_date t)
           ∧ 8 ≤ length cell ≤ 10).
Proof.
  pose proof (search_date t) as Hs.
  exists (row_of t), (date_cell (parsed_date t)).
  split_and!.
  - unfold row_of. destruct (parse_info t) as [[??]?]. apply build_csv_row_ok.
  - unfold row_of, parsed_date. by destruct (parse_info t) as [[??]?].
  - unfold parsed_date, parse_info. cbn [fst snd].
    destruct (search date_re t) as [m|]; [right|by left].
    destruct Hs as (_ & _ & _ & Hm & _).
    pose proof (date_numeral_length m Hm) as Hlen.
    assert (length (date_cell m) = length m) as Hcell.
    { rewrite date_cell_replace. unfold replace_char. by rewrite length_map. }
    destruct Hm as (y & s1 & mo & s2 & d & -> & Hy & Hyd & Hs1 & Hmo & Hmd
                    & Hs2 & Hd & Hdd).
    assert (date_cell (y ++ s1 :: mo ++ s2 :: d)
            = y ++ slash :: mo ++ slash :: d) as Heq.
    { rewrite date_cell_replace, replace_char_app, replace_char_cons.
      rewrite replace_char_app, replace_char_cons.
      by rewrite !replace_hyphen_digits, !replace_hyphen_sep by done. }
    exists y, s1, mo, s2, d.
    split_and!; try done; try lia.
    rewrite Heq. exists y, mo, d. split_and!; try done; lia.
Qed.

(** X5: the row is determined cell by cell: cell 0 holds the date with
    its hyphens replaced, cell 15 the amount and cell 33 the partner, both
    exactly as given, every other cell up to the 44th is empty, and there
    is no cell beyond. *)
Theorem X5_row_cell_by_cell (date amount partner : text) :
  ∃ row,
    build_csv_row date amount partner = Ok row
    ∧ ∀ i,
        row !! i
        = if decide (44 ≤ i) then None
          else if decide (i = 0) then Some (date_cell date)
          else if decide (i = 15) then Some amount
          else if decide (i = 33) then Some partner
          else Some [].
Proof.
  destruct (build_csv_row_cells date amount partner)
    as (row & Hrow & H0 & H15 & H33 & Hother).
  exists row. split; [done|]. intros i.
  assert (length row = 44) as Hlen.
  { rewrite build_csv_row_ok in Hrow. injection Hrow as <-.
    rewrite ?length_insert, ?length_replicate. reflexivity. }
  repeat case_decide; subst; try done.
  - apply lookup_ge_None. lia.
  - apply Hother; [lia|done..].
Qed.

(** ** The text of a document *)

Ltac seq_step first_part :=
  eapply appends_bind_ok;
  [ first_part
  | first [ simpl; reflexivity | symmetry; apply app_nil_r ]
  | first [ simpl; reflexivity | symmetry; apply app_nil_r ]
  | ].

Lemma page_lines_cons p pages :
  page_lines (p :: pages)
  = match p with
    | Some (c :: s) => (c :: s) ++ newline
    | _ => []
    end ++ page_lines pages.
Proof. reflexivity. Qed.

Lemma page_lines_end pages :
  page_lines pages = [] ∨ ∃ r, page_lines pages = r ++ newline.
Proof.
  induction pages as [|p pages IH]; [by left|]. rewrite page_lines_cons.
  destruct IH as [->|[r ->]].
  - rewrite app_nil_r. destruct p as [[|c s]|]; eauto.
  - right. eexists. by rewrite (assoc_L (++)).
Qed.

Lemma page_lines_blank_iff pages :
  all_of isspace (page_lines pages) ↔ Forall blank_page pages.
Proof.
  induction pages as [|p pages IH]; [by split; constructor|].
  rewrite page_lines_cons, all_of_app, IH, Forall_cons.
  apply and_iff_compat_r. destruct p as [[|c s]|]; cbn [blank_page].
  - done.
  - rewrite all_of_app. split; [by intros [? _]|].
    intros Hs. split; [done|by repeat constructor].
  - by split; [|constructor].
Qed.

Section PipelineMore.
Context `{U : UnicodeData} `{I : Imaging}.

Lemma read_pages_all pages : ∀ t,
  read_pages (map Ok pages) t = (t ++ page_lines pages, Ok ()).
Proof.
  induction pages as [|p pages IH]; intros t; cbn [map read_pages].
  - by rewrite app_nil_r.
  - rewrite page_lines_cons.
    destruct p as [[|c s]|]; rewrite IH; [done| |done].
    by rewrite <-!(assoc_L (++)).
Qed.

Lemma extract_text_pages_read doc pages :
  pages_read doc pages → extract_text_from_pdf doc = page_lines pages.
Proof.
  unfold extract_text_from_pdf.
  intros [->|[e [[-> ->]|[after ->]]]]; [|done|].
  - by rewrite read_pages_all.
  - by rewrite read_pages_until_failure.
Qed.

(** X6: when every page is read, the extracted text is the texts of the
    pages in page order, each followed by a line feed, the pages without
    text or with an empty text leaving nothing; so the text is empty or
    ends with a line feed. *)
Theorem X6_extracted_text_is_pages_in_order
    (doc : document) (pages : list (option text)) :
  pdfplumber_pages doc = Ok (map Ok pages) →
  extract_text_from_pdf doc
  = concat (map (λ p, match p with
                      | Some (c :: s) => (c :: s) ++ newline
                      | _ => []
                      end) pages)
  ∧ (extract_text_from_pdf doc = []
     ∨ ∃ r, extract_text_from_pdf doc = r ++ newline).
Proof.
  intros Hpages.
  rewrite (extract_text_pages_read doc pages) by by left.
  split; [done|apply page_lines_end].
Qed.

(** X7: the OCR path is taken exactly when every page read from the text
    layer, up to the end or up to a reader failure, is without text or has
    whitespace only. *)
Theorem X7_ocr_iff_every_page_read_is_blank
    (doc : document) (pages : list (option text)) (st : state) :
  pages_read doc pages →
  ∃ cs o,
    document_text doc st
    = ({| csv := csv st;
          calls := calls st ++ Call_extract_text_from_pdf :: cs |}, o)
    ∧ (Call_pdf_to_images ∈ cs ↔ Forall blank_page pages).
Proof.
  intros Hpages%extract_text_pages_read.
  destruct (document_text_appends doc) as (cs & o & Happ & Hblank & Hfull).
  exists cs, o. split; [by rewrite Happ, app_nil_r|].
  rewrite <-page_lines_blank_iff, <-strip_blank, <-Hpages.
  destruct (decide (strip (extract_text_from_pdf doc) = [])) as [He|Hne].
  - destruct (Hblank He) as (cs' & -> & _). split; [done|]. by left.
  - destruct (Hfull Hne) as [-> _]. split; [by intros ?%elem_of_nil|done].
Qed.

(** *** Recognition *)

Lemma ocr_pages_all_ok images : ∀ pages t,
  Forall2 (λ img page, image_to_string img = Ok page) images pages →
  appends (ocr_pages images t) []
    (replicate (length images) Call_image_to_string)
    (Ok (t ++ concat (map (λ page, page ++ newline) pages))).
Proof.
  induction images as [|img images IH]; intros pages t Hocr.
  - apply Forall2_nil_inv_l in Hocr as ->. cbn. rewrite app_nil_r.
    apply appends_ret.
  - apply Forall2_cons_inv_l in Hocr as (page & pages' & Hpage & Hrest & ->).
    cbn [ocr_pages length replicate map concat].
    seq_step ltac:(apply appends_called).
    rewrite Hpage. seq_step ltac:(apply appends_lift).
    rewrite (assoc_L (++) t (page ++ newline)). by apply IH.
Qed.

Lemma ocr_pages_failure good : ∀ bad later pages e t,
  Forall2 (λ img page, image_to_string img = Ok page) good pages →
  image_to_string bad = Raise e →
  appends (ocr_pages (good ++ bad :: later) t) []
    (replicate (S (length good)) Call_image_to_string) (Raise e).
Proof.
  induction good as [|img good IH]; intros bad later pages e t Hocr Hbad.
  - cbn [app ocr_pages length replicate].
    seq_step ltac:(apply appends_called).
    rewrite Hbad. apply appends_bind_raise, appends_lift.
  - apply Forall2_cons_inv_l in Hocr as (page & pages' & Hpage & Hrest & ->).
    cbn [app ocr_pages length replicate].
    seq_step ltac:(apply appends_called).
    rewrite Hpage. seq_step ltac:(apply appends_lift).
    by eapply IH.
Qed.

Lemma document_text_ocr doc images o cs :
  strip (extract_text_from_pdf doc) = [] →
  convert_from_path doc = Ok images →
  appends (ocr_pages (map preprocess images) []) [] cs o →
  appends (document_text doc) []
    ([Call_extract_text_from_pdf; Call_pdf_to_images; Call_convert_from_path;
      Call_ocr_images] ++ cs) o.
Proof.
  intros Hblank Hraster Hocr. unfold document_text. rewrite Hblank.
  cbn [is_empty]. pose proof (pdf_to_images_appends doc) as Himg.
  rewrite Hraster in Himg.
  seq_step ltac:(apply appends_called).
  seq_step ltac:(exact Himg).
  unfold ocr_images. seq_step ltac:(apply appends_called). exact Hocr.
Qed.

Lemma document_text_all_recognised
    (doc : document) (images : list image) (pages : list text) :
  strip (extract_text_from_pdf doc) = [] →
  convert_from_path doc = Ok images →
  Forall2 (λ img page, image_to_string (preprocess img) = Ok page)
    images pages →
  appends (document_text doc) [] (ocr_path_calls (length images))
    (Ok (concat (map (λ page, page ++ newline) pages))).
Proof.
  intros Hblank Hraster Hocr.
  rewrite <-(length_map preprocess images).
  eapply document_text_ocr; [done..|].
  apply (ocr_pages_all_ok (map preprocess images) pages []).
  by apply Forall2_fmap_l.
Qed.

(** X8: when the text layer is blank and every page is recognised, each
    rasterised page is thresholded and recognised exactly once, in page
    order, and the text of the document is the recognised texts in that
    order, each followed by a line feed. *)
Theorem X8_ocr_once_per_page_in_order
    (doc : document) (images : list image) (pages : list text) :
  strip (extract_text_from_pdf doc) = [] →
  convert_from_path doc = Ok images →
  Forall2 (λ img page, image_to_string (preprocess img) = Ok page)
    images pages →
  ∀ st,
    document_text doc st
    = ({| csv := csv st; calls := calls st ++ ocr_path_calls (length images) |},
       Ok (concat (map (λ page, page ++ newline) pages))).
Proof.
  intros Hblank Hraster Hocr st.
  rewrite (document_text_all_recognised doc images pages Hblank Hraster Hocr).
  by rewrite app_nil_r.
Qed.

(** X9: when recognition fails on a page, the pages after it are not
    recognised, the exception leaves the loop body and no row is written
    for the document. *)
Theorem X9_ocr_failure_stops_document
    (file : drive_file) (doc : document)
    (good later : list image) (bad : image) (pages : list text) (e : exn) :
  download_pdf file = Ok doc →
  strip (extract_text_from_pdf doc) = [] →
  convert_from_path doc = Ok (good ++ bad :: later) →
  Forall2 (λ img page, image_to_string (preprocess img) = Ok page) good pages →
  image_to_string (preprocess bad) = Raise e →
  ∀ st,
    process_file file st
    = ({| csv := csv st;
          calls := calls st ++ ocr_path_calls (S (length good)) |}, Raise e).
Proof.
  intros Hdl Hblank Hraster Hgood Hbad st.
  assert (appends (document_text doc) [] (ocr_path_calls (S (length good)))
            (Raise e)) as Htext.
  { rewrite <-(length_map preprocess good).
    eapply document_text_ocr; [done..|].
    rewrite map_app. cbn [map]. eapply ocr_pages_failure; [|done].
    by apply Forall2_fmap_l. }
  unfold process_file. rewrite Hdl. cbv [mbind M_bind lift].
  by rewrite Htext, app_nil_r.
Qed.

(** X10: a document whose text layer is not blank is processed from that
    text alone, and rasterisation and recognition are not called whatever
    they would have given: when the row of the text can be encoded it is
    written and the outcome is a success; when one of its cells holds a
    surrogate, [UnicodeEncodeError] is raised and no row is written. *)
Theorem X10_text_layer_row_ignores_images
    (file : drive_file) (doc : document) :
  download_pdf file = Ok doc →
  strip (extract_text_from_pdf doc) ≠ [] →
  ∀ st,
    process_file file st
    = if encodable (row_of (extract_text_from_pdf doc))
      then ({| csv := csv st ++ [row_of (extract_text_from_pdf doc)];
               calls := calls st ++ [Call_extract_text_from_pdf] |}, Ok ())
      else ({| csv := csv st;
               calls := calls st ++ [Call_extract_text_from_pdf] |},
            Raise UnicodeEncodeError).
Proof.
  intros Hdl Hne st.
  destruct (document_text_appends doc) as (cs & o & Htext & _ & Hfull).
  destruct (Hfull Hne) as [-> ->].
  unfold process_file. rewrite Hdl. cbv [mbind M_bind lift].
  rewrite Htext.
  destruct (encodable (row_of (extract_text_from_pdf doc))) eqn:Hrow.
  - rewrite (emit_row_appends _ Hrow). cbn [csv calls].
    by rewrite !app_nil_r.
  - rewrite (emit_row_fails _ Hrow). cbn [csv calls].
    by rewrite !app_nil_r.
Qed.
End PipelineMore.

(** ** The batch as a whole *)

Section PipelineBatch.
Context `{U : UnicodeData} `{I : Imaging}.

Lemma length_row_of t : length (row_of t) = 44.
Proof.
  unfold row_of. destruct (parse_info t) as [[date amount] partner].
  by rewrite !length_insert, length_replicate.
Qed.

Lemma file_text_appends file :
  ∃ cs o, appends (file_text file) [] cs o.
Proof.
  unfold file_text. destruct (download_pdf file) as [doc|e].
  - destruct (document_text_appends doc) as (cs & o & Htext & _).
    exists (Call_extract_text_from_pdf :: cs), o.
    seq_step ltac:(apply appends_lift). exact Htext.
  - exists [], (Raise e). apply appends_bind_raise, appends_lift.
Qed.

Lemma process_file_via_text file st :
  process_file file st = (file_text file ≫= emit_row) st.
Proof.
  unfold process_file, file_text. cbv [mbind M_bind lift].
  destruct (download_pdf file) as [doc|e]; [|done].
  by destruct (document_text doc st) as [st' [t|e]].
Qed.

(** What a file appends, by the text obtained for it. *)
Lemma process_file_by_text file :
  ∃ cs,
    match (file_text file start).2 with
    | Ok t =>
        if encodable (row_of t)
        then appends (process_file file) [row_of t] cs (Ok ())
        else appends (process_file file) [] cs (Raise UnicodeEncodeError)
    | Raise e => appends (process_file file) [] cs (Raise e)
    end.
Proof.
  destruct (file_text_appends file) as (cs & o & Htext). exists cs.
  rewrite Htext. cbn [snd]. destruct o as [t|e].
  - destruct (encodable (row_of t)) eqn:Hrow; intros st;
      rewrite process_file_via_text; revert st.
    + seq_step ltac:(exact Htext). by apply emit_row_appends.
    + seq_step ltac:(exact Htext). by apply emit_row_fails.
  - intros st. rewrite process_file_via_text. revert st.
    by apply appends_bind_raise.
Qed.

Lemma for_each_rows_in_order files : ∀ texts,
  Forall2 (λ f t, (file_text f start).2 = Ok t) files texts →
  Forall (λ t, encodable (row_of t) = true) texts →
  ∃ cs, appends (for_each process_file files) (map row_of texts) cs (Ok ()).
Proof.
  induction files as [|f files IH]; intros texts Htexts Hrows.
  - apply Forall2_nil_inv_l in Htexts as ->. exists []. apply appends_ret.
  - apply Forall2_cons_inv_l in Htexts as (t & texts' & Ht & Hrest & ->).
    apply Forall_cons in Hrows as [Hrow Hrows].
    destruct (IH texts' Hrest Hrows) as (cs & Hloop).
    destruct (process_file_by_text f) as (cs1 & Hfile).
    rewrite Ht, Hrow in Hfile.
    exists (cs1 ++ cs). cbn [for_each map].
    eapply appends_bind_ok; [exact Hfile|done|done|exact Hloop].
Qed.

(** X11: when a text is obtained for every file of the listing and the
    row of each text can be encoded, the output is the header followed by
    one row per file, in the order of the listing, the row of a file being
    the row of its own text whatever the other files are. *)
Theorem X11_one_row_per_file_in_listing_order
    (files : list drive_file) (texts : list text) :
  Forall2 (λ f t, (file_text f start).2 = Ok t) files texts →
  Forall (λ t, encodable (row_of t) = true) texts →
  let run := process_pdfs {| list_pdf_files := Ok files |} start in
  run.2 = Ok () ∧ csv run.1 = CSV_COLUMNS :: map row_of texts.
Proof.
  intros Htexts Hrows.
  destruct (for_each_rows_in_order files texts Htexts Hrows)
    as (cs & Hloop%process_pdfs_appends).
  cbv zeta. by rewrite Hloop.
Qed.

Lemma for_each_stops before file after rows cs cs1 e :
  appends (for_each process_file before) rows cs (Ok ()) →
  appends (process_file file) [] cs1 (Raise e) →
  appends (for_each process_file (before ++ file :: after))
    rows (cs ++ cs1) (Raise e).
Proof.
  intros Hloop Hfile st. rewrite for_each_app. revert st.
  eapply appends_bind_ok; [exact Hloop|symmetry; apply app_nil_r|done|].
  cbn [for_each]. by apply appends_bind_raise.
Qed.

(** X12: whatever makes a file fail (its download, the rasterisation of
    its pages or the recognition of one of them), the batch ends at that
    file: the exception leaves [process_pdfs], and the output is the
    header and the rows of the files listed before it, as if the listing
    had ended there. *)
Theorem X12_any_file_failure_ends_batch
    (before after : list drive_file) (file : drive_file) (e : exn) :
  Forall (λ f, (process_file f start).2 = Ok ()) before →
  (process_file file start).2 = Raise e →
  let all :=
    process_pdfs {| list_pdf_files := Ok (before ++ file :: after) |} start in
  let earlier := process_pdfs {| list_pdf_files := Ok before |} start in
  all.2 = Raise e
  ∧ earlier.2 = Ok ()
  ∧ csv all.1 = csv earlier.1
  ∧ length (csv all.1) = S (length before).
Proof.
  intros Hbefore Hfile.
  destruct (for_each_all_ok before Hbefore) as (rows & cs & Hloop & Hlen).
  destruct (process_file_appends file) as (rows1 & cs1 & o & Hf & _ & Hnone).
  rewrite Hf in Hfile. cbn [snd] in Hfile. subst o.
  rewrite (Hnone e eq_refl) in Hf.
  pose proof (for_each_stops before file after _ _ _ _ Hloop Hf) as Hall.
  apply process_pdfs_appends in Hall, Hloop.
  cbv zeta. rewrite Hall, Hloop. cbn [fst snd csv start app length].
  by rewrite Hlen.
Qed.

Lemma for_each_rows files :
  ∃ rows cs o,
    appends (for_each process_file files) rows cs o
    ∧ Forall (λ row, length row = 44) rows
    ∧ length rows ≤ length files
    ∧ (o = Ok () → length rows = length files).
Proof.
  induction files as [|f files (rows & cs & o & Hloop & Hwide & Hle & Heq)].
  - exists [], [], (Ok ()). split_and!; [apply appends_ret|done..].
  - destruct (process_file_by_text f) as (cs1 & Hfile).
    destruct ((file_text f start).2) as [t|e];
      [destruct (encodable (row_of t))|].
    + exists (row_of t :: rows), (cs1 ++ cs), o. cbn [for_each].
      split_and!.
      * eapply appends_bind_ok; [exact Hfile|done|done|exact Hloop].
      * constructor; [apply length_row_of|done].
      * simpl. lia.
      * intros Ho. simpl. by rewrite Heq.
    + exists [], cs1, (Raise UnicodeEncodeError). cbn [for_each].
      split_and!; [by apply appends_bind_raise|done|simpl; lia|done].
    + exists [], cs1, (Raise e). cbn [for_each].
      split_and!; [by apply appends_bind_raise|done|simpl; lia|done].
Qed.

(** X13: whatever the service answers and however the batch ends, every
    row added to the output, the header included, has 44 cells; there is
    at most one row per file of the listing after the header, and exactly
    one when the batch ends without an exception. *)
Theorem X13_output_rows_all_have_44_cells
    (service : drive_service) (st : state) :
  ∃ rows,
    csv (process_pdfs service st).1 = csv st ++ rows
    ∧ Forall (λ row, length row = 44) rows
    ∧ (∀ files, list_pdf_files service = Ok files →
         ∃ data, rows = CSV_COLUMNS :: data
           ∧ length data ≤ length files
           ∧ ((process_pdfs service st).2 = Ok () →
              length data = length files)).
Proof.
  destruct service as [[files|e]].
  - destruct (for_each_rows files) as (rows & cs & o & Hloop & Hwide & Hle & Heq).
    apply process_pdfs_appends in Hloop. rewrite Hloop. cbn [fst snd csv].
    exists (CSV_COLUMNS :: rows). split_and!; [done|by constructor|].
    intros ? [= <-]. exists rows. split_and!; [done..|].
    intros ->. by apply Heq.
  - exists []. change (process_pdfs {| list_pdf_files := Raise e |} st)
      with (st, @Raise () e).
    cbn [fst]. rewrite app_nil_r. split_and!; [done|constructor|done].
Qed.

(** X14: nothing is written and no document is touched when the
    credentials or the listing fail; an empty listing gives the header
    alone; and once the listing is obtained the header is the first row
    written, whatever happens to the files. *)
Theorem X14_header_first_and_nothing_on_startup_failure (st : state) :
  (∀ e, main (Raise e) st = (st, Raise e))
  ∧ (∀ e, main (Ok {| list_pdf_files := Raise e |}) st = (st, Raise e))
  ∧ main (Ok {| list_pdf_files := Ok [] |}) st
    = ({| csv := csv st ++ [CSV_COLUMNS]; calls := calls st |}, Ok ())
  ∧ (∀ files, ∃ rows cs,
       (main (Ok {| list_pdf_files := Ok files |}) st).1
       = {| csv := csv st ++ CSV_COLUMNS :: rows; calls := calls st ++ cs |}).
Proof.
  split_and!; [reflexivity..|].
  intros files.
  destruct (for_each_rows files) as (rows & cs & o & Hloop & _).
  apply process_pdfs_appends in Hloop. exists rows, cs.
  unfold main. cbv [mbind M_bind lift]. by rewrite Hloop.
Qed.

(** A text of line feeds only gives a row of empty cells. *)
Lemma row_of_line_feeds t :
  Forall (λ c, c = 10%N) t → row_of t = replicate 44 [].
Proof.
  intros Ht. unfold row_of.
  assert (parse_info t = ([], [], [])) as ->; [|reflexivity].
  assert (parsed_date t = []) as Hdate.
  { unfold parsed_date, parse_info. cbn [fst snd].
    rewrite <-(app_nil_r t), search_date_skips; [done|].
    eapply Forall_impl; [exact Ht|]. by intros c ->. }
  assert (parsed_amount t = []) as Hamount.
  { apply amount_of_no_digit.
    eapply Forall_impl; [exact Ht|]. by intros c ->. }
  assert (parsed_name t = []) as Hname.
  { apply name_of_blank.
    eapply Forall_impl; [exact Ht|]. by intros c ->. }
  unfold parsed_date, parsed_amount, parsed_name in *.
  destruct (parse_info t) as [[date amount] name]. cbn in *. by subst.
Qed.

(** X15: a document with a blank text layer whose pages are all
    recognised as the empty string, a document without pages included, is
    not an error: one row of 44 empty cells is written for it. *)
Theorem X15_empty_recognition_gives_empty_row
    (file : drive_file) (doc : document) (images : list image) :
  download_pdf file = Ok doc →
  strip (extract_text_from_pdf doc) = [] →
  convert_from_path doc = Ok images →
  Forall (λ img, image_to_string (preprocess img) = Ok []) images →
  ∀ st,
    process_file file st
    = ({| csv := csv st ++ [replicate 44 []];
          calls := calls st ++ ocr_path_calls (length images) |}, Ok ()).
Proof.
  intros Hdl Hblank Hraster Hocr st.
  assert (Forall2 (λ img page, image_to_string (preprocess img) = Ok page)
            images (map (λ _, []) images)) as Hpages.
  { clear -Hocr. induction Hocr; cbn [map]; by constructor. }
  pose proof (document_text_all_recognised doc images _ Hblank Hraster Hpages)
    as Htext.
  unfold process_file. rewrite Hdl. cbv [mbind M_bind lift].
  assert (row_of (concat (map (λ page, page ++ newline)
                            (map (λ _ : image, []) images)))
          = replicate 44 []) as Hrow.
  { apply row_of_line_feeds. clear.
    induction images as [|img images IH]; [constructor|].
    cbn. by constructor. }
  rewrite Htext, emit_row_appends by (by rewrite Hrow).
  cbn [csv calls]. by rewrite !app_nil_r, Hrow.
Qed.
End PipelineBatch.

(** ** Closed instances *)

(** Three pages, the second without text. *)
Lemma X6_witness :
  pdfplumber_pages MoreExamples.three_page_pdf
  = Ok (map Ok [Some (utf8 "ACME Corp"); None; Some (utf8 "Total 980")])
  ∧ extract_text_from_pdf MoreExamples.three_page_pdf
    = utf8 "ACME Corp" ++ newline ++ utf8 "Total 980" ++ newline.
Proof.
  split; [reflexivity|].
  exact (proj1 (X6_extracted_text_is_pages_in_order (I:=printed_pages)
                  MoreExamples.three_page_pdf
                  [Some (utf8 "ACME Corp"); None; Some (utf8 "Total 980")]
                  eq_refl)).
Defined.

(** A text layer of spaces: both pages read are blank. *)
Lemma X7_witness :
  pages_read MoreExamples.empty_scan [Some (utf8 "  "); None]
  ∧ ∃ cs o,
      document_text MoreExamples.empty_scan start
      = ({| csv := []; calls := Call_extract_text_from_pdf :: cs |}, o)
      ∧ (Call_pdf_to_images ∈ cs
         ↔ Forall blank_page [Some (utf8 "  "); None]).
Proof.
  assert (pages_read MoreExamples.empty_scan [Some (utf8 "  "); None])
    as Hread by (left; reflexivity).
  split; [exact Hread|].
  exact (X7_ocr_iff_every_page_read_is_blank (I:=printed_pages)
           MoreExamples.empty_scan [Some (utf8 "  "); None] start Hread).
Defined.

(** A one-page scan. *)
Lemma X8_witness :
  strip (extract_text_from_pdf (Examples.scanned_pdf "Bolt Ltd 980")) = []
  ∧ convert_from_path (Examples.scanned_pdf "Bolt Ltd 980")
    = Ok [utf8 "Bolt Ltd 980"]
  ∧ document_text (Examples.scanned_pdf "Bolt Ltd 980") start
    = ({| csv := []; calls := ocr_path_calls 1 |},
       Ok (utf8 "Bolt Ltd 980" ++ newline)).
Proof.
  split_and!; [reflexivity..|].
  apply (X8_ocr_once_per_page_in_order (I:=printed_pages)
           (Examples.scanned_pdf "Bolt Ltd 980")
           [utf8 "Bolt Ltd 980"] [utf8 "Bolt Ltd 980"]).
  - reflexivity.
  - reflexivity.
  - by repeat constructor.
Defined.

(** A scan of three pages, the second of which cannot be recognised: two
    recognitions, and no row. *)
Lemma X9_witness :
  download_pdf MoreExamples.smudged_file = Ok MoreExamples.smudged_scan
  ∧ strip (extract_text_from_pdf MoreExamples.smudged_scan) = []
  ∧ process_file (U:=two_blocks) MoreExamples.smudged_file start
    = ({| csv := []; calls := ocr_path_calls 2 |},
       Raise (Exception (utf8 "tesseract failed"))).
Proof.
  split_and!; [reflexivity..|].
  apply (X9_ocr_failure_stops_document (U:=two_blocks) (I:=fragile_pages)
           MoreExamples.smudged_file MoreExamples.smudged_scan
           [utf8 "ACME Corp"] [utf8 "Total 980"] [] [utf8 "ACME Corp"]
           (Exception (utf8 "tesseract failed"))).
  - reflexivity.
  - reflexivity.
  - reflexivity.
  - by repeat constructor.
  - reflexivity.
Defined.

(** A document with a text layer. *)
Lemma X10_witness :
  download_pdf (Examples.in_drive "1" (Examples.text_pdf Examples.first_text))
  = Ok (Examples.text_pdf Examples.first_text)
  ∧ strip (extract_text_from_pdf (Examples.text_pdf Examples.first_text)) ≠ []
  ∧ (process_file (U:=two_blocks)
       (Examples.in_drive "1" (Examples.text_pdf Examples.first_text)) start).2
    = Ok ().
Proof.
  assert (strip (extract_text_from_pdf
                   (Examples.text_pdf Examples.first_text)) ≠ [])
    as Hne by (vm_compute; discriminate).
  split_and!; [reflexivity|exact Hne|].
  rewrite (X10_text_layer_row_ignores_images (U:=two_blocks) (I:=printed_pages)
             (Examples.in_drive "1" (Examples.text_pdf Examples.first_text))
             (Examples.text_pdf Examples.first_text) eq_refl Hne start).
  reflexivity.
Defined.

(** Two documents with a text layer. *)
Lemma X11_witness :
  Forall2 (λ f t, (file_text (I:=printed_pages) f start).2 = Ok t)
    [Examples.in_drive "1" (Examples.text_pdf Examples.first_text);
     Examples.in_drive "3" (Examples.text_pdf Examples.third_text)]
    [utf8 Examples.first_text ++ newline; utf8 Examples.third_text ++ newline]
  ∧ Forall (λ t, encodable (row_of (U:=two_blocks) t) = true)
      [utf8 Examples.first_text ++ newline; utf8 Examples.third_text ++ newline]
  ∧ csv (process_pdfs (U:=two_blocks) (I:=printed_pages)
           {| list_pdf_files :=
                Ok [Examples.in_drive "1" (Examples.text_pdf Examples.first_text);
                    Examples.in_drive "3" (Examples.text_pdf Examples.third_text)] |}
           start).1
    = CSV_COLUMNS
      :: map (row_of (U:=two_blocks))
           [utf8 Examples.first_text ++ newline;
            utf8 Examples.third_text ++ newline].
Proof.
  assert (Forall2 (λ f t, (file_text (I:=printed_pages) f start).2 = Ok t)
            [Examples.in_drive "1" (Examples.text_pdf Examples.first_text);
             Examples.in_drive "3" (Examples.text_pdf Examples.third_text)]
            [utf8 Examples.first_text ++ newline;
             utf8 Examples.third_text ++ newline]) as Htexts
    by (by repeat constructor).
  assert (Forall (λ t, encodable (row_of (U:=two_blocks) t) = true)
            [utf8 Examples.first_text ++ newline;
             utf8 Examples.third_text ++ newline]) as Hrows
    by (by repeat constructor).
  split_and!; [exact Htexts|exact Hrows|].
  exact (proj2 (X11_one_row_per_file_in_listing_order (U:=two_blocks)
                  (I:=printed_pages) _ _ Htexts Hrows)).
Defined.

(** A file that cannot be downloaded, between two that can. *)
Lemma X12_witness :
  Forall (λ f, (process_file (U:=two_blocks) (I:=printed_pages) f start).2 = Ok ())
    [Examples.in_drive "1" (Examples.text_pdf Examples.first_text)]
  ∧ (process_file (U:=two_blocks) MoreExamples.unreachable_file start).2
    = Raise (Exception (utf8 "HttpError 404"))
  ∧ (process_pdfs (U:=two_blocks) (I:=printed_pages)
       {| list_pdf_files :=
            Ok ([Examples.in_drive "1" (Examples.text_pdf Examples.first_text)]
                ++ MoreExamples.unreachable_file
                :: [Examples.in_drive "3" (Examples.text_pdf Examples.third_text)]) |}
       start).2
    = Raise (Exception (utf8 "HttpError 404")).
Proof.
  split_and!; [by repeat constructor|reflexivity|].
  apply (X12_any_file_failure_ends_batch (U:=two_blocks) (I:=printed_pages)
           [Examples.in_drive "1" (Examples.text_pdf Examples.first_text)]
           [Examples.in_drive "3" (Examples.text_pdf Examples.third_text)]
           MoreExamples.unreachable_file (Exception (utf8 "HttpError 404"))).
  - by repeat constructor.
  - reflexivity.
Defined.

(** A document with a blank text layer and no page. *)
Lemma X15_witness :
  download_pdf (Examples.in_drive "5" MoreExamples.empty_scan)
  = Ok MoreExamples.empty_scan
  ∧ strip (extract_text_from_pdf MoreExamples.empty_scan) = []
  ∧ convert_from_path MoreExamples.empty_scan = Ok []
  ∧ process_file (U:=two_blocks)
      (Examples.in_drive "5" MoreExamples.empty_scan) start
    = ({| csv := [replicate 44 []]; calls := ocr_path_calls 0 |}, Ok ()).
Proof.
  split_and!; [reflexivity..|].
  apply (X15_empty_recognition_gives_empty_row (U:=two_blocks)
           (I:=printed_pages)
           (Examples.in_drive "5" MoreExamples.empty_scan)
           MoreExamples.empty_scan []).
  - reflexivity.
  - reflexivity.
  - reflexivity.
  - constructor.
Defined.

(** ** Two runs on the same text *)

Lemma store_item_last (h : Objects.heap) l i v :
  i < length l →
  Objects.store_item (h ++ [l]) (length h) i v = (h ++ [<[i:=v]> l], Ok ()).
Proof.
  intros Hi. unfold Objects.store_item.
  rewrite list_lookup_middle by done. rewrite decide_True by done.
  f_equal. rewrite insert_app_r_alt by done.
  by replace (length h - length h) with 0 by lia.
Qed.

(** In a heap that holds [CSV_COLUMNS], a call makes one new list, the row
    of [build_csv_row], and changes nothing else. *)
Lemma build_csv_row_object (h : Objects.heap) columns date amount partner :
  h !! columns = Some CSV_COLUMNS →
  Objects.build_csv_row columns date amount partner h
  = (h ++ [<[33:=partner]> (<[15:=amount]> (<[0:=date_cell date]>
             (replicate (length CSV_COLUMNS) [])))],
     Ok (length h)).
Proof.
  intros Hcolumns. unfold Objects.build_csv_row, Objects.new_list.
  unfold Objects.list_len. rewrite Hcolumns.
  fold (date_cell date).
  rewrite store_item_last
    by (rewrite length_replicate; change (length CSV_COLUMNS) with 44; lia).
  rewrite store_item_last
    by (rewrite length_insert, length_replicate;
        change (length CSV_COLUMNS) with 44; lia).
  rewrite store_item_last
    by (rewrite !length_insert, length_replicate;
        change (length CSV_COLUMNS) with 44; lia).
  done.
Qed.

Lemma parse_and_build_object `{U : UnicodeData} t (h : Objects.heap) columns :
  h !! columns = Some CSV_COLUMNS →
  Objects.parse_and_build columns t h
  = (h ++ [row_of t], Ok (parse_info t, length h)).
Proof.
  intros Hcolumns. unfold Objects.parse_and_build, row_of.
  destruct (parse_info t) as [[date amount] partner].
  by rewrite build_csv_row_object.
Qed.

(** C9: the parse and row-build stages run twice on the same text give
    the same fields, which are those the text determines (the first date,
    the first numeral without its commas, a name that is empty only for a
    blank text), and two rows with the same cells, those of
    [build_csv_row] for these fields.  The two rows are two list objects:
    the second run changes neither the first row, nor [CSV_COLUMNS], nor
    any list that existed before. *)
Theorem C9_two_runs_same_fields_same_row `{U : UnicodeData}
    (t : text) (h : Objects.heap) (columns : nat) :
  h !! columns = Some CSV_COLUMNS →
  ∃ date amount partner row r1 r2 h1 h2,
    Objects.parse_and_build columns t h
    = (h1, Ok (date, amount, partner, r1))
    ∧ Objects.parse_and_build columns t h1
      = (h2, Ok (date, amount, partner, r2))
    ∧ (first_match date_numeral t date
       ∨ (no_match date_numeral t ∧ date = []))
    ∧ ((∃ m, first_match amount_numeral t m ∧ amount = remove_char comma m)
       ∨ (no_match amount_numeral t ∧ amount = []))
    ∧ (partner = [] ↔ all_of isspace t)
    ∧ build_csv_row date amount partner = Ok row
    ∧ r1 ≠ r2
    ∧ h1 !! r1 = Some row
    ∧ h2 !! r1 = Some row
    ∧ h2 !! r2 = Some row
    ∧ h2 !! columns = Some CSV_COLUMNS
    ∧ ∀ a l, h !! a = Some l → h2 !! a = Some l.
Proof.
  intros Hcolumns.
  assert ((h ++ [row_of t]) !! columns = Some CSV_COLUMNS) as Hcolumns1
    by by apply lookup_app_l_Some.
  pose proof (parse_and_build_object t h columns Hcolumns) as Hrun1.
  pose proof (parse_and_build_object t _ columns Hcolumns1) as Hrun2.
  pose proof (search_date t) as Hdate.
  pose proof (search_amount t) as Hamount.
  assert (parsed_name t = [] ↔ all_of isspace t) as Hname.
  { split; [|apply name_of_blank].
    unfold parsed_name, parse_info. cbn [snd]. unfold splitlines.
    intros Hnone. by apply (first_nonblank_none t []). }
  assert (build_csv_row (parsed_date t) (parsed_amount t) (parsed_name t)
          = Ok (row_of t)) as Hrow.
  { unfold row_of, parsed_date, parsed_amount, parsed_name.
    destruct (parse_info t) as [[??]?]. apply build_csv_row_ok. }
  assert (parse_info t = (parsed_date t, parsed_amount t, parsed_name t))
    as Hfields.
  { unfold parsed_date, parsed_amount, parsed_name.
    by destruct (parse_info t) as [[??]?]. }
  rewrite Hfields in Hrun1, Hrun2.
  exists (parsed_date t), (parsed_amount t), (parsed_name t), (row_of t).
  exists (length h), (length (h ++ [row_of t])).
  exists (h ++ [row_of t]), ((h ++ [row_of t]) ++ [row_of t]).
  split_and!; [done|done| | |done|done| | | | | |].
  - unfold parsed_date, parse_info. cbn [fst snd].
    destruct (search date_re t); [by left|by right].
  - unfold parsed_amount, parse_info. cbn [fst snd].
    destruct (search amount_re t); [left; eauto|by right].
  - rewrite length_app. simpl. lia.
  - by apply list_lookup_middle.
  - apply lookup_app_l_Some. by apply list_lookup_middle.
  - by apply list_lookup_middle.
  - by apply lookup_app_l_Some.
  - intros a l Ha. by do 2 apply lookup_app_l_Some.
Qed.

(** A heap with [CSV_COLUMNS] and an earlier row. *)
Lemma C9_witness :
  [CSV_COLUMNS; replicate 44 []] !! 0 = Some CSV_COLUMNS
  ∧ ∃ fields r1 r2 h1 h2,
      Objects.parse_and_build (U:=two_blocks) 0
        (utf8 "ACME Corp 2024-03-15 12,345") [CSV_COLUMNS; replicate 44 []]
      = (h1, Ok (fields, r1))
      ∧ Objects.parse_and_build (U:=two_blocks) 0
          (utf8 "ACME Corp 2024-03-15 12,345") h1
        = (h2, Ok (fields, r2))
      ∧ r1 ≠ r2 ∧ h2 !! r1 = h2 !! r2.
Proof.
  split; [reflexivity|].
  destruct (C9_two_runs_same_fields_same_row (U:=two_blocks)
              (utf8 "ACME Corp 2024-03-15 12,345")
              [CSV_COLUMNS; replicate 44 []] 0 eq_refl)
    as (date & amount & partner & row & r1 & r2 & h1 & h2
        & H1 & H2 & _ & _ & _ & _ & Hne & _ & Hr1 & Hr2 & _).
  exists (date, amount, partner), r1, r2, h1, h2.
  split_and!; [exact H1|exact H2|exact Hne|].
  rewrite Hr1, Hr2. reflexivity.
Defined.
